(** * Rainforest spectrogram: analysis, smoothing, history and cross-fade

    A shallow embedding of the audio-visual pipeline of the portfolio site:

    - [src/components/RainforestSpectrogram.tsx]: the 256-bin height-field
      component ([computeFrequencyData], [updateSpectrogram],
      [startAudioSource]);
    - the 64-bin variant of the same component (same analyser, unsmoothed,
      unflipped history rows);
    - the contour component ([computeSpectrumSegment],
      [extractSurfacesForWindow], [blendSurfaces], [scheduleBlend], the
      scan of the payload by [update], the contour positions and
      [buildSurfaceRim]).

    Number model.  A JavaScript number is modelled by a canonical rational
    ([Qc]): arithmetic is exact, so the rounding of binary64 and of
    [Float32Array] stores is idealised away, while [Uint8Array] stores keep
    their truncation modulo 256.  [NaN] is modelled where the code can
    produce it, as [None] in [float].  The functions that ECMAScript leaves
    implementation-approximated ([Math.cos], [Math.sin], [Math.log10],
    [Math.pow], and [Math.sqrt], [Math.PI]) are the fields of the interface
    [MathLib]; what a proof needs from them is a law in [MathLaws]. *)

From Stdlib Require Import ZArith QArith Qcanon Qround Lqa Lia List.
From stdpp Require Import base option list.
Import ListNotations.

Set Default Proof Using "Type".

(* ================================================================= *)
(** ** JavaScript numbers *)

Module JS.

Local Open Scope Qc_scope.

Definition ofZ (z : Z) : Qc := Q2Qc (inject_Z z).
Definition ofNat (n : nat) : Qc := ofZ (Z.of_nat n).

(** [Math.floor], [Math.ceil] and truncation toward zero. *)
Definition Math_floor (x : Qc) : Z := Qfloor x.
Definition Math_ceil (x : Qc) : Z := Qceiling x.
Definition Math_trunc (x : Qc) : Z :=
  if decide (x < 0) then Qceiling x else Qfloor x.

Definition Math_min (a b : Qc) : Qc := if decide (b < a) then b else a.
Definition Math_max (a b : Qc) : Qc := if decide (a < b) then b else a.

(** The remainder operator [a % b] on numbers: the result has the sign of
    the dividend, [a - b * trunc (a / b)].  For [b = 0] JavaScript yields
    [NaN]; every use below is under [0 < b]. *)
Definition js_rem (a b : Qc) : Qc := a - b * ofZ (Math_trunc (a / b)).

(** Conversion performed by a store into a [Uint8Array]. *)
Definition ToUint8 (x : Qc) : Z := (Math_trunc x mod 256)%Z.

(** A number that may be [NaN]. *)
Definition float := option Qc.
Definition NaN : float := None.

Definition lift2 (f : Qc -> Qc -> Qc) (a b : float) : float :=
  x ← a; y ← b; Some (f x y).

Definition fadd := lift2 Qcplus.
Definition fsub := lift2 Qcminus.
Definition fmul := lift2 Qcmult.
Definition fdiv := lift2 Qcdiv.
(** [Math.min] and [Math.max] return [NaN] as soon as an argument is. *)
Definition fmin := lift2 Math_min.
Definition fmax := lift2 Math_max.

(** Storing [NaN] into a [Uint8Array] stores 0. *)
Definition ToUint8f (x : float) : Z :=
  match x with Some q => ToUint8 q | None => 0%Z end.

(** The implementation-approximated part of [Math]. *)
Class MathLib := {
  Math_PI : Qc;
  Math_cos : Qc -> Qc;
  Math_sin : Qc -> Qc;
  Math_sqrt : Qc -> Qc;
  Math_log10 : Qc -> Qc;
  Math_pow : Qc -> Qc -> Qc
}.

Class MathLaws (M : MathLib) := {
  sqrt_nonneg : forall x, 0 <= Math_sqrt x;
  pow_one : forall y, Math_pow 1 y = 1;
  pow_unit : forall x y, 0 <= x <= 1 -> 0 <= y -> 0 <= Math_pow x y <= 1
}.

End JS.

Export JS.

(* ================================================================= *)
(** ** A rational instance of the [Math] interface

    Used to run the model on concrete inputs.  Sine follows Bhaskara's
    rational approximation after reduction modulo [2 * PI], the square root
    is exact to six decimals, the decimal logarithm counts binary digits,
    and [pow] is the first-order rational interpolation that is exact at 0
    and 1; results are rounded down to 12 binary digits.  The theorems
    below hold for every instance; those that need more assume [MathLaws],
    which this instance satisfies. *)

Module Approx.

Local Open Scope Qc_scope.

(** Rounding down to a multiple of [2 ^ -12]. *)
Definition fix12 (x : Qc) : Qc :=
  ofZ (Math_floor (x * Q2Qc 4096)) / Q2Qc 4096.

Definition PI : Qc := Q2Qc (355 # 113).

Definition bhaskara (x : Qc) : Qc :=
  (Q2Qc 16 * x * (PI - x)) / (Q2Qc 5 * PI * PI - Q2Qc 4 * x * (PI - x)).

Definition sin (x : Qc) : Qc :=
  let r := js_rem x (Q2Qc 2 * PI) in
  let r := if decide (r < 0) then r + Q2Qc 2 * PI else r in
  if decide (r <= PI) then fix12 (bhaskara r)
  else - fix12 (bhaskara (r - PI)).

Definition cos (x : Qc) : Qc := sin (x + PI / Q2Qc 2).

Definition sqrt (x : Qc) : Qc :=
  ofZ (Z.sqrt (Math_floor (x * Q2Qc 1000000000000))) / Q2Qc 1000000.

Definition log10 (x : Qc) : Qc :=
  ofZ (Z.log2 (Qnum x) - Z.log2 (Zpos (Qden x))) * Q2Qc 0.30103.

Definition pow (x y : Qc) : Qc :=
  if decide (x <= 0) then 0 else fix12 (x / (y + (1 - y) * x)).

#[export] Instance rationalMath : MathLib := {|
  Math_PI := PI;
  Math_cos := cos;
  Math_sin := sin;
  Math_sqrt := sqrt;
  Math_log10 := log10;
  Math_pow := pow
|}.

End Approx.

(* ================================================================= *)
(** ** The height-field component: analyser *)

Module Spectrogram.

Local Open Scope Qc_scope.

(** The module-level constants of the component.  The 256-bin component and
    its 64-bin variant run the same analyser on different constants; the
    variant has no low-frequency suppression at all ([None]). *)
Record Config := {
  FREQUENCY_BINS : nat;
  HISTORY_LENGTH : nat;
  fftSize : nat;
  MIN_DECIBELS : Qc;
  MAX_DECIBELS : Qc;
  SMOOTHING_CONSTANT : Qc;
  LOW_FREQUENCY_CUTOFF_HZ : option Qc
}.

Definition primary : Config := {|
  FREQUENCY_BINS := 256;
  HISTORY_LENGTH := 256;
  fftSize := 2048;
  MIN_DECIBELS := Q2Qc (-90);
  MAX_DECIBELS := Q2Qc (-15);
  SMOOTHING_CONSTANT := Q2Qc 0.15;
  LOW_FREQUENCY_CUTOFF_HZ := Some (Q2Qc 200)
|}.

Definition variant64 : Config := {|
  FREQUENCY_BINS := 64;
  HISTORY_LENGTH := 96;
  fftSize := 512;
  MIN_DECIBELS := Q2Qc (-90);
  MAX_DECIBELS := Q2Qc (-15);
  SMOOTHING_CONSTANT := Q2Qc 0.85;
  LOW_FREQUENCY_CUTOFF_HZ := None
|}.

Definition ROW_BYTE_SIZE (cfg : Config) : nat := FREQUENCY_BINS cfg * 4.

(** [analyser.frequencyBinCount], the length of [dataArrayRef.current]. *)
Definition frequencyBinCount (cfg : Config) : nat := fftSize cfg / 2.

(** A decoded [AudioBuffer], first channel only. *)
Record AudioBuffer := {
  sampleRate : Qc;
  channelData : list Qc
}.

Definition duration (buffer : AudioBuffer) : Qc :=
  ofNat (length (channelData buffer)) / sampleRate buffer.

(** [TypedArray.prototype.fill (v, s, e)]. *)
Definition fill {A} (v : A) (s e : nat) (l : list A) : list A :=
  imap (fun i x => if decide (s <= i < e)%nat then v else x) l.

(** [channelData[i]]: [undefined] outside the buffer, which arithmetic turns
    into [NaN]. *)
Definition readSample (channelData : list Qc) (i : Z) : float :=
  if decide (i < 0)%Z then NaN else channelData !! Z.to_nat i.

(** What [computeFrequencyData] mutates: the target [Uint8Array] and
    [prevFrequencyDataRef] ([None] while the ref is still null). *)
Record AnalyserState := {
  targetArray : list Z;
  prevFrequencyDataRef : option (list float)
}.

(** The outcome of one call, with the indices of [channelData] it read. *)
Record Analysis := {
  result : AnalyserState;
  sampleReads : list Z
}.

Section Analyser.

Context (cfg : Config) {M : MathLib}.

(** The first lines of [computeFrequencyData]: the virtual playback clock. *)
Definition visualOffset (buffer : AudioBuffer) (performance_now : Qc) : Qc :=
  let time := performance_now / Q2Qc 1000 in
  let duration := duration buffer in
  js_rem time duration.

Definition startIndexAt (buffer : AudioBuffer) (performance_now : Qc) : Z :=
  let offset := visualOffset buffer performance_now in
  Math_floor (offset * sampleRate buffer).

(** The inner loop of the transform, for one bin [k]. *)
Record Acc := {
  real : float;
  imag : float;
  reads : list Z
}.

Definition dftStep (channelData : list Qc) (startIndex : Z) (k : nat)
    (acc : Acc) (n : nat) : Acc :=
  let sample := readSample channelData (startIndex + Z.of_nat n) in
  let window :=
    Q2Qc 0.5 * (1 - Math_cos ((Q2Qc 2 * Math_PI * ofNat n)
                              / (ofNat (fftSize cfg) - 1))) in
  let windowedSample := fmul sample (Some window) in
  let angle := (Q2Qc 2 * Math_PI * ofNat k * ofNat n) / ofNat (fftSize cfg) in
  {| real := fadd (real acc) (fmul windowedSample (Some (Math_cos angle)));
     imag := fsub (imag acc) (fmul windowedSample (Some (Math_sin angle)));
     reads := reads acc ++ [(startIndex + Z.of_nat n)%Z] |}.

Definition dft (channelData : list Qc) (startIndex : Z) (k : nat) : Acc :=
  fold_left (dftStep channelData startIndex k) (seq 0 (fftSize cfg))
    {| real := Some 0; imag := Some 0; reads := [] |}.

(** Magnitude, decibels and the clamped byte value of one bin. *)
Definition byteValueOf (acc : Acc) : float :=
  let rangeScaleFactor := Q2Qc 255 / (MAX_DECIBELS cfg - MIN_DECIBELS cfg) in
  let magnitude :=
    Math_sqrt <$> fadd (fmul (real acc) (real acc))
                       (fmul (imag acc) (imag acc)) in
  let normalized :=
    fadd (fdiv magnitude (Some (ofNat (fftSize cfg)))) (Some (Q2Qc 1e-10)) in
  let db := fmul (Some (Q2Qc 20)) (Math_log10 <$> normalized) in
  let byteValue := fmul (fsub db (Some (MIN_DECIBELS cfg)))
                        (Some rangeScaleFactor) in
  fmax (Some 0) (fmin (Some (Q2Qc 255)) byteValue).

(** The arrays and the read log threaded through the loop over bins. *)
Record Loop := {
  l_target : list Z;
  l_prevData : list float;
  l_reads : list Z
}.

(** [prevData[k]]. *)
Definition prevAt (prevData : list float) (k : nat) : float :=
  default NaN (prevData !! k).

Definition smoothedValueOf (prevData : list float) (k : nat)
    (byteValue : float) : float :=
  fadd (fmul (prevAt prevData k) (Some (SMOOTHING_CONSTANT cfg)))
       (fmul byteValue (Some (1 - SMOOTHING_CONSTANT cfg))).

Definition binStep (channelData : list Qc) (startIndex : Z)
    (st : Loop) (k : nat) : Loop :=
  let acc := dft channelData startIndex k in
  let byteValue := byteValueOf acc in
  let smoothedValue := smoothedValueOf (l_prevData st) k byteValue in
  {| l_target := <[k := ToUint8f smoothedValue]> (l_target st);
     l_prevData := <[k := smoothedValue]> (l_prevData st);
     l_reads := l_reads st ++ reads acc |}.

Definition cutoffBinOf (buffer : AudioBuffer) (binCount : nat) : nat :=
  match LOW_FREQUENCY_CUTOFF_HZ cfg with
  | Some hz =>
      let binResolutionHz := sampleRate buffer / ofNat (fftSize cfg) in
      Z.to_nat (Z.min (Z.of_nat binCount) (Math_ceil (hz / binResolutionHz)))
  | None => 0%nat
  end.

(** [prevFrequencyDataRef.current] after its lazy initialisation: a null
    ref is allocated as zeros, of the length of the target array. *)
Definition prevView (st : AnalyserState) : list float :=
  match prevFrequencyDataRef st with
  | Some prev => prev
  | None => replicate (length (targetArray st)) (Some 0)
  end.

(** The low-frequency suppression: both arrays zeroed below the cutoff. *)
Definition filledFrom (buffer : AudioBuffer) (st : AnalyserState) : Loop :=
  let prevData := prevView st in
  let binCount := Nat.min (FREQUENCY_BINS cfg) (length (targetArray st)) in
  let cutoffBin := cutoffBinOf buffer binCount in
  if decide (0 < cutoffBin)%nat
  then {| l_target := fill 0%Z 0 cutoffBin (targetArray st);
          l_prevData := fill (Some 0) 0 cutoffBin prevData;
          l_reads := [] |}
  else {| l_target := targetArray st; l_prevData := prevData;
          l_reads := [] |}.

Definition computeFrequencyData (buffer : AudioBuffer) (performance_now : Qc)
    (st : AnalyserState) : Analysis :=
  let startIndex := startIndexAt buffer performance_now in
  let channelData := channelData buffer in
  let prevData := prevView st in
  (* Safety check *)
  if decide (startIndex + Z.of_nat (fftSize cfg)
             >= Z.of_nat (length channelData))%Z
  then {| result := {| targetArray := targetArray st;
                       prevFrequencyDataRef := Some prevData |};
          sampleReads := [] |}
  else
    let binCount := Nat.min (FREQUENCY_BINS cfg) (length (targetArray st)) in
    let cutoffBin := cutoffBinOf buffer binCount in
    let final :=
      fold_left (binStep channelData startIndex)
        (seq cutoffBin (binCount - cutoffBin)) (filledFrom buffer st) in
    {| result := {| targetArray := l_target final;
                    prevFrequencyDataRef := Some (l_prevData final) |};
       sampleReads := l_reads final |}.

(** The frame the renderer consumes: the first [FREQUENCY_BINS] entries. *)
Definition frame (st : AnalyserState) : list Z :=
  take (FREQUENCY_BINS cfg) (targetArray st).

(** The state at mount, and the states the render loop can reach on a
    given buffer. *)
Definition initialAnalyser : AnalyserState :=
  {| targetArray := replicate (frequencyBinCount cfg) 0%Z;
     prevFrequencyDataRef := None |}.


End Analyser.

(* ----------------------------------------------------------------- *)
(** *** Smoothing and history: [updateSpectrogram] *)

Definition FREQUENCY_SMOOTH_KERNEL : list Qc :=
  map Q2Qc [0.03; 0.08; 0.15; 0.18; 0.15; 0.08; 0.03]%Q.
Definition FREQUENCY_SMOOTH_MIX : Qc := Q2Qc 0.9.
Definition TEMPORAL_SMOOTHING : Qc := Q2Qc 0.7.

(** The audio engine, as far as the component observes it. *)
Inductive ContextState := suspended | running | closed.

Record SourceNode := {
  loop : bool;
  startOffset : Qc
}.

Record Engine := {
  audioContext : option ContextState;
  analyserNode : bool;
  audioSource : option SourceNode;
  audioReady : bool;
  isStarted : bool
}.

(** The refs of the mounted component.  [normalizedBinsRef] is rewritten in
    full on every tick before it is read, so it is a local of
    [updateSpectrogram]; [dataArrayRef] and the texture are set by the mount
    effects before the render loop starts. *)
Record Component := {
  audioBuffer : option AudioBuffer;
  analyser : AnalyserState;
  smoothedRow : list Qc;
  hasSmoothedRow : bool;
  spectrogramData : list Z;
  engine : Engine
}.

(** [TypedArray.prototype.copyWithin (target, start, end)] for non-negative
    arguments. *)
Definition copyWithin {A} (target start end_ : nat) (data : list A) : list A :=
  let len := length data in
  let to := Nat.min target len in
  let from := Nat.min start len in
  let final := Nat.min end_ len in
  let count := Nat.min (final - from) (len - to) in
  take to data ++ take count (drop from data) ++ drop (to + count) data.

(** [texture2D (u_spectrogram, vUv).r] at the centre of texel [(x, y)] of
    the RGBA data texture of width [FREQUENCY_BINS]: the shaders read the
    history at the coordinates they are given. *)
Definition texel (cfg : Config) (data : list Z) (x y : nat) : option Z :=
  data !! ((y * FREQUENCY_BINS cfg + x) * 4)%nat.


(** The sum of the kernel weights. *)
Definition kernelSum : Qc := fold_right Qcplus 0 FREQUENCY_SMOOTH_KERNEL.

(** A row of [n] bins holding a single impulse, at bin [j]. *)
Definition impulse (n j : nat) : list Qc :=
  map (fun i => if decide (i = j) then 1 else 0) (seq 0 n).

(** Bin [z] of a row with the index clamped to the edges. *)
Definition clampedBin (cfg : Config) (row : list Qc) (z : Z) : Qc :=
  default 0
    (row !! Z.to_nat (Z.max 0 (Z.min (Z.of_nat (FREQUENCY_BINS cfg) - 1) z))).


Section Pipeline.

Context (cfg : Config) {M : MathLib}.

Definition normalize (dataArray : list Z) : list Qc :=
  let usableBins := Nat.min (FREQUENCY_BINS cfg) (length dataArray) in
  map (fun i =>
         let magnitude :=
           if decide (i < usableBins)%nat
           then ofZ (default 0%Z (dataArray !! i)) else 0 in
         Math_pow (magnitude / Q2Qc 255) (Q2Qc 0.7))
      (seq 0 (FREQUENCY_BINS cfg)).

(** One tap of the kernel, with the index clamped to the edges. *)
Definition kernelTap (normalizedBins : list Qc) (i : nat)
    (smoothed : Qc) (k : nat) : Qc :=
  let kernel := FREQUENCY_SMOOTH_KERNEL in
  let kernelRadius := Z.of_nat (length kernel / 2) in
  let index := (Z.of_nat i + (Z.of_nat k - kernelRadius))%Z in
  let index := if decide (index < 0)%Z then 0%Z else index in
  let index :=
    if decide (index >= Z.of_nat (FREQUENCY_BINS cfg))%Z
    then (Z.of_nat (FREQUENCY_BINS cfg) - 1)%Z else index in
  smoothed + default 0 (normalizedBins !! Z.to_nat index)
             * default 0 (kernel !! k).

Definition smoothedAt (normalizedBins : list Qc) (i : nat) : Qc :=
  fold_left (kernelTap normalizedBins i)
    (seq 0 (length FREQUENCY_SMOOTH_KERNEL)) 0.

Definition blendedFreqAt (normalizedBins : list Qc) (i : nat) : Qc :=
  default 0 (normalizedBins !! i) * (1 - FREQUENCY_SMOOTH_MIX)
  + smoothedAt normalizedBins i * FREQUENCY_SMOOTH_MIX.

(** The temporal blend against the previous committed row. *)
Definition finalValueOf (hasPrevRow : bool) (prev blendedFreq : Qc) : Qc :=
  if hasPrevRow
  then prev * TEMPORAL_SMOOTHING + blendedFreq * (1 - TEMPORAL_SMOOTHING)
  else blendedFreq.

(** The four channel bytes of one pixel. *)
Definition pixelBytes (value : Qc) : list Z :=
  [ToUint8 (value * Q2Qc 255);
   ToUint8 (Math_pow value (Q2Qc 0.9) * Q2Qc 255);
   ToUint8 (Q2Qc 200 + value * Q2Qc 55);
   255%Z].

(** The four stores of one pixel. *)
Definition writePixel (pixelIndex : nat) (value : Qc) (data : list Z)
    : list Z :=
  <[(pixelIndex + 3)%nat := 255%Z]>
    (<[(pixelIndex + 2)%nat := ToUint8 (Q2Qc 200 + value * Q2Qc 55)]>
      (<[(pixelIndex + 1)%nat :=
           ToUint8 (Math_pow value (Q2Qc 0.9) * Q2Qc 255)]>
        (<[pixelIndex := ToUint8 (value * Q2Qc 255)]> data))).

Record RowLoop := {
  r_smoothedRow : list Qc;
  r_data : list Z
}.

Definition rowStep (normalizedBins : list Qc) (hasPrevRow : bool)
    (st : RowLoop) (i : nat) : RowLoop :=
  let blendedFreq := blendedFreqAt normalizedBins i in
  let finalValue :=
    finalValueOf hasPrevRow (default 0 (r_smoothedRow st !! i)) blendedFreq in
  (* Flip frequency axis: low frequencies at bottom, high at top *)
  let pixelIndex := ((FREQUENCY_BINS cfg - 1 - i) * 4)%nat in
  {| r_smoothedRow := <[i := finalValue]> (r_smoothedRow st);
     r_data := writePixel pixelIndex finalValue (r_data st) |}.


(** The smoothing and commit stages, from the frame in [dataArray]. *)
Definition commitFrame (dataArray : list Z) (smoothedRow : list Qc)
    (hasPrevRow : bool) (spectrogramData : list Z) : RowLoop :=
  let shifted :=
    copyWithin (ROW_BYTE_SIZE cfg) 0
      (length spectrogramData - ROW_BYTE_SIZE cfg) spectrogramData in
  let normalizedBins := normalize dataArray in
  fold_left (rowStep normalizedBins hasPrevRow) (seq 0 (FREQUENCY_BINS cfg))
    {| r_smoothedRow := smoothedRow; r_data := shifted |}.

(** One animation tick; [performance_now] is the clock reading taken by
    [computeFrequencyData]. *)
Definition updateSpectrogram (performance_now : Qc) (c : Component)
    : Component :=
  let analyser' :=
    match audioBuffer c with
    | Some buffer =>
        result (computeFrequencyData cfg buffer performance_now (analyser c))
    | None => analyser c
    end in
  let final :=
    commitFrame (targetArray analyser') (smoothedRow c) (hasSmoothedRow c)
      (spectrogramData c) in
  {| audioBuffer := audioBuffer c;
     analyser := analyser';
     smoothedRow := r_smoothedRow final;
     hasSmoothedRow := true;
     spectrogramData := r_data final;
     engine := engine c |}.

(** The render loop over a sequence of clock readings. *)
Definition runTicks (clock : list Qc) (c : Component) : Component :=
  fold_left (fun c performance_now => updateSpectrogram performance_now c)
    clock c.

(** [startAudioSource]; a failure of the platform calls inside its [try]
    block is not modelled. *)
Definition startAudioSource (performance_now : Qc) (c : Component)
    : Component :=
  match audioContext (engine c), audioBuffer c,
        analyserNode (engine c), audioSource (engine c) with
  | Some _, Some buffer, true, None =>
      (* Sync start time with the visual clock to avoid jumps *)
      let time := performance_now / Q2Qc 1000 in
      let duration := duration buffer in
      let offset := js_rem time duration in
      {| audioBuffer := audioBuffer c;
         analyser := analyser c;
         smoothedRow := smoothedRow c;
         hasSmoothedRow := hasSmoothedRow c;
         spectrogramData := spectrogramData c;
         engine := {| audioContext := audioContext (engine c);
                      analyserNode := analyserNode (engine c);
                      audioSource :=
                        Some {| loop := true; startOffset := offset |};
                      audioReady := true;
                      isStarted := isStarted (engine c) |} |}
  | _, _, _, _ => c
  end.


End Pipeline.

End Spectrogram.

(* ================================================================= *)
(** ** The 64-bin variant: unsmoothed, unflipped rows *)

Module Variant64.

Import Spectrogram.

Local Open Scope Qc_scope.

Record Component := {
  audioBuffer : option AudioBuffer;
  analyser : AnalyserState;
  spectrogramData : list Z
}.

Section Pipeline.

Context (cfg : Config) {M : MathLib}.

Definition normalizedAt (dataArray : list Z) (i : nat) : Qc :=
  let usableBins := Nat.min (FREQUENCY_BINS cfg) (length dataArray) in
  let magnitude :=
    if decide (i < usableBins)%nat
    then ofZ (default 0%Z (dataArray !! i)) else 0 in
  Math_pow (magnitude / Q2Qc 255) (Q2Qc 0.7).

Definition rowStep (dataArray : list Z) (data : list Z) (i : nat) : list Z :=
  let normalized := normalizedAt dataArray i in
  let pixelIndex := (i * 4)%nat in
  writePixel pixelIndex normalized data.

Definition updateSpectrogram (performance_now : Qc) (c : Component)
    : Component :=
  let analyser' :=
    match audioBuffer c with
    | Some buffer =>
        result (computeFrequencyData cfg buffer performance_now (analyser c))
    | None => analyser c
    end in
  let shifted :=
    copyWithin (ROW_BYTE_SIZE cfg) 0
      (length (spectrogramData c) - ROW_BYTE_SIZE cfg) (spectrogramData c) in
  {| audioBuffer := audioBuffer c;
     analyser := analyser';
     spectrogramData :=
       fold_left (rowStep (targetArray analyser'))
         (seq 0 (FREQUENCY_BINS cfg)) shifted |}.

End Pipeline.

End Variant64.

(* ================================================================= *)
(** ** The contour component *)

Module Contours.

Local Open Scope Qc_scope.

Definition SURFACE_COUNT : nat := 3.
Definition TIME_SLICES : nat := 28.
Definition FREQ_BINS : nat := 20.
Definition WINDOW_SIZE : nat := 2048.
Definition MIN_FREQ : Qc := Q2Qc 60.
Definition MAX_FREQ : Qc := Q2Qc 9000.

Definition SurfaceMatrix := list (list Qc).

Record AudioPayload := {
  samples : list Qc;
  sampleRate : Qc
}.

(** [TypedArray.prototype.subarray (begin, end)] for non-negative bounds. *)
Definition subarray {A} (begin end_ : nat) (l : list A) : list A :=
  take (end_ - begin) (drop begin l).

Section Spectrum.

Context {M : MathLib}.

Definition applyHannWindow (length index : nat) : Qc :=
  if decide (length <= 1)%nat then 1
  else Q2Qc 0.5 * (1 - Math_cos ((Q2Qc 2 * Math_PI * ofNat index)
                                 / (ofNat length - 1))).

(** The rotating phasor and the two accumulators of one bin. *)
Record Phasor := {
  cosValue : Qc;
  sinValue : Qc;
  real : Qc;
  imag : Qc
}.

Definition phasorStep (segment : list Qc) (cosDelta sinDelta : Qc)
    (p : Phasor) (i : nat) : Phasor :=
  let windowedSample :=
    default 0 (segment !! i) * applyHannWindow (length segment) i in
  let nextCos := cosValue p * cosDelta - sinValue p * sinDelta in
  let nextSin := sinValue p * cosDelta + cosValue p * sinDelta in
  {| cosValue := nextCos;
     sinValue := nextSin;
     real := real p + windowedSample * cosValue p;
     imag := imag p - windowedSample * sinValue p |}.

Definition computeSpectrumSegment (segment : list Qc) (sampleRate : Qc)
    : list Qc :=
  let nyquist := sampleRate / Q2Qc 2 in
  let maxTargetFreq := Math_min MAX_FREQ nyquist in
  let freqSpan := Math_max 1 (maxTargetFreq - MIN_FREQ) in
  map (fun bin =>
         let freq := MIN_FREQ + (freqSpan * ofNat bin) / ofNat (FREQ_BINS - 1) in
         let angle := (Q2Qc 2 * Math_PI * freq) / sampleRate in
         let cosDelta := Math_cos angle in
         let sinDelta := Math_sin angle in
         let p :=
           fold_left (phasorStep segment cosDelta sinDelta)
             (seq 0 (length segment))
             {| cosValue := 1; sinValue := 0; real := 0; imag := 0 |} in
         Math_sqrt (real p * real p + imag p * imag p))
      (seq 0 FREQ_BINS).

(** The rows of one surface and the running maximum. *)
Record Scan := {
  surface : SurfaceMatrix;
  globalMax : Qc
}.

Definition sliceStep (layer : list Qc) (sampleRate : Qc) (sliceLength : nat)
    (st : Scan) (slice : nat) : Scan :=
  let start := (slice * sliceLength)%nat in
  if decide (length layer <= start)%nat
  then {| surface := surface st ++ [replicate FREQ_BINS 0];
          globalMax := globalMax st |}
  else
    let available :=
      Nat.max 64 (Nat.min WINDOW_SIZE (length layer - start)) in
    let copied := subarray start (start + available) layer in
    let segment := copied ++ replicate (available - length copied) 0 in
    let magnitudes := computeSpectrumSegment segment sampleRate in
    {| surface := surface st ++ [magnitudes];
       globalMax :=
         fold_left (fun globalMax value =>
                      if decide (globalMax < value) then value else globalMax)
           magnitudes (globalMax st) |}.

(** All surfaces so far and the running maximum. *)
Record Extraction := {
  surfaces : list SurfaceMatrix;
  maxSoFar : Qc
}.

Definition surfaceStep (windowed : list Qc) (sampleRate : Qc)
    (segmentLength : nat) (st : Extraction) (surfaceIndex : nat)
    : Extraction :=
  let offset := (surfaceIndex * segmentLength)%nat in
  let sliceEnd := Nat.min (offset + segmentLength) (length windowed) in
  let layer := subarray offset sliceEnd windowed in
  if decide (length layer = 0)%nat then st
  else
    let sliceLength := Nat.max 1 (length layer / TIME_SLICES) in
    let scan :=
      fold_left (sliceStep layer sampleRate sliceLength) (seq 0 TIME_SLICES)
        {| surface := []; globalMax := maxSoFar st |} in
    {| surfaces := surfaces st ++ [surface scan];
       maxSoFar := globalMax scan |}.

(** The first phase of [extractSurfacesForWindow]: the raw magnitudes. *)
Definition rawSurfaces (payload : AudioPayload)
    (startSample windowSamples : nat) : Extraction :=
  let end_ := Nat.min (length (samples payload)) (startSample + windowSamples) in
  let windowed := subarray startSample end_ (samples payload) in
  let segmentLength := Nat.max 1 (length windowed / SURFACE_COUNT) in
  fold_left (surfaceStep windowed (sampleRate payload) segmentLength)
    (seq 0 SURFACE_COUNT) {| surfaces := []; maxSoFar := 0 |}.

Definition extractSurfacesForWindow (payload : AudioPayload)
    (startSample windowSamples : nat) : list SurfaceMatrix :=
  let end_ := Nat.min (length (samples payload)) (startSample + windowSamples) in
  if decide (end_ <= startSample)%nat then []
  else
    let raw := rawSurfaces payload startSample windowSamples in
    let normalizer := if decide (maxSoFar raw = 0) then 1 else maxSoFar raw in
    map (map (map (fun value =>
                     Math_pow (value / normalizer) (Q2Qc 0.85))))
        (surfaces raw).

End Spectrum.

(** *** Cross-fade between layer sets *)


Record Transition := {
  from : list SurfaceMatrix;
  to : list SurfaceMatrix;
  start : Qc
}.

(** The state the blend task works on.  [rafRef] tells whether an animation
    frame is requested; [displayRef] follows [displaySurfaces] through the
    effect that copies it after every render. *)
Record BlendState := {
  displaySurfaces : list SurfaceMatrix;
  displayRef : list SurfaceMatrix;
  transitionRef : option Transition;
  rafRef : bool
}.


Definition scheduleBlend (next : list SurfaceMatrix) (now : Qc)
    (s : BlendState) : BlendState :=
  let baseline :=
    if decide (length (displayRef s) = 0)%nat then next else displayRef s in
  {| displaySurfaces := displaySurfaces s;
     displayRef := displayRef s;
     transitionRef := Some {| from := baseline; to := next; start := now |};
     rafRef := true |}.

End Contours.

(* ================================================================= *)
(** ** Well-formedness of inputs and states *)

Module Wf.

Import Spectrogram.

Local Open Scope Qc_scope.

(** What the Web Audio platform guarantees of a decoded buffer. *)
Definition wfBuffer (buffer : AudioBuffer) : Prop :=
  0 < sampleRate buffer /\ (0 < length (channelData buffer))%nat.

(** The two configurations of the repository. *)
Definition shipped (cfg : Config) : Prop := cfg = primary \/ cfg = variant64.

Definition wfConfig (cfg : Config) : Prop :=
  0 <= SMOOTHING_CONSTANT cfg /\ SMOOTHING_CONSTANT cfg <= 1 /\
  (0 < fftSize cfg)%nat /\
  (FREQUENCY_BINS cfg <= frequencyBinCount cfg)%nat /\
  match LOW_FREQUENCY_CUTOFF_HZ cfg with Some hz => 0 <= hz | None => True end.

(** A number that is not [NaN] and lies in the byte range. *)
Definition inByteRange (x : float) : Prop :=
  exists q, x = Some q /\ 0 <= q /\ q <= Q2Qc 255.


(** The window would read past the end of the buffer. *)
Definition windowPastEnd (cfg : Config) (buffer : AudioBuffer)
    (performance_now : Qc) : Prop :=
  (startIndexAt buffer performance_now + Z.of_nat (fftSize cfg)
   > Z.of_nat (length (channelData buffer)))%Z.

(** The invariant of the analyser state on a given buffer. *)
Definition analyserInv (cfg : Config) (buffer : AudioBuffer)
    (st : AnalyserState) : Prop :=
  length (targetArray st) = frequencyBinCount cfg /\
  Forall (fun v => 0 <= v < 256)%Z (targetArray st) /\
  (forall k, (k < cutoffBinOf cfg buffer (FREQUENCY_BINS cfg))%nat ->
             targetArray st !! k = Some 0%Z) /\
  length (prevView st) = frequencyBinCount cfg /\
  Forall inByteRange (prevView st).


End Wf.

Export Wf.

(* ================================================================= *)
(** ** Concrete inputs *)

Module Examples.

Import Spectrogram.

Local Open Scope Qc_scope.

(** 4096 samples of silence at 44.1 kHz. *)
Definition silence : AudioBuffer :=
  {| sampleRate := Q2Qc 44100; channelData := replicate 4096 0 |}.

(** 4096 samples of a full-scale square wave of period 204 samples. *)
Definition squareWave : AudioBuffer :=
  {| sampleRate := Q2Qc 44100;
     channelData :=
       map (fun n => if (n mod 204 <? 102)%nat then 1 else - (1))
           (seq 0 4096) |}.


Definition engineSuspended : Engine :=
  {| audioContext := Some suspended;
     analyserNode := true;
     audioSource := None;
     audioReady := false;
     isStarted := false |}.

Definition engineRunning : Engine :=
  {| audioContext := Some running;
     analyserNode := true;
     audioSource := Some {| loop := true; startOffset := 0 |};
     audioReady := true;
     isStarted := true |}.

(** The mounted 256-bin component once the asset is decoded. *)
Definition loaded (buffer : AudioBuffer) (e : Engine) : Component :=
  {| audioBuffer := Some buffer;
     analyser := initialAnalyser primary;
     smoothedRow := replicate (FREQUENCY_BINS primary) 0;
     hasSmoothedRow := false;
     spectrogramData :=
       replicate (FREQUENCY_BINS primary * HISTORY_LENGTH primary * 4) 0%Z;
     engine := e |}.

(** The mounted 64-bin variant once the asset is decoded. *)
Definition loaded64 (buffer : AudioBuffer) : Variant64.Component :=
  {| Variant64.audioBuffer := Some buffer;
     Variant64.analyser := initialAnalyser variant64;
     Variant64.spectrogramData :=
       replicate (FREQUENCY_BINS variant64 * HISTORY_LENGTH variant64 * 4)
         0%Z |}.

End Examples.

(* ================================================================= *)
(** ** The contour component: the scan of the payload and the geometry *)

Module ContourView.

Import Contours.

Local Open Scope Qc_scope.

Definition WINDOW_DURATION_SECONDS : Qc := Q2Qc 5.
Definition FRAME_INTERVAL_MS : Qc := Q2Qc 180.

(** [Math.round]: the nearest integer, a tie going up. *)
Definition Math_round (x : Qc) : Z := Math_floor (x + Q2Qc 0.5).

(** Entry [(s, r, c)] of a layer set, if there is one. *)
Definition entry (m : list SurfaceMatrix) (s r c : nat) : option Qc :=
  match m !! s with
  | Some surface =>
      match surface !! r with
      | Some row => row !! c
      | None => None
      end
  | None => None
  end.

(** *** The scan: [update] *)

(** The sample rate of a decoded payload is positive, so the floors below
    are natural numbers. *)
Definition windowSamplesOf (payload : AudioPayload) : nat :=
  Nat.min (length (samples payload))
    (Z.to_nat (Math_floor (sampleRate payload * WINDOW_DURATION_SECONDS))).

Definition stepSamplesOf (payload : AudioPayload) : nat :=
  Nat.max 1024
    (Z.to_nat (Math_floor ((sampleRate payload * FRAME_INTERVAL_MS)
                           / Q2Qc 1000))).

(** The state of the scanning effect: its local [offsetSamples], the
    [surfaces] state and the state of the blend task. *)
Record Scanner := {
  offsetSamples : nat;
  surfacesState : list SurfaceMatrix;
  blend : BlendState
}.

(** The effect that shows the first layer set as soon as there is one. *)
Definition showFirst (surfaces : list SurfaceMatrix) (s : BlendState)
    : BlendState :=
  if decide (length (displaySurfaces s) = 0 /\ length surfaces <> 0)%nat
  then {| displaySurfaces := surfaces;
          displayRef := surfaces;
          transitionRef := transitionRef s;
          rafRef := rafRef s |}
  else s.

Section Scan.

Context {M : MathLib}.

(** One run of [update], with the effects of the render it causes;
    [performance_now] is the clock reading taken by [scheduleBlend]. *)
Definition update (payload : AudioPayload) (performance_now : Qc)
    (s : Scanner) : Scanner :=
  let windowSamples := windowSamplesOf payload in
  let stepSamples := stepSamplesOf payload in
  let nextSurfaces :=
    extractSurfacesForWindow payload (offsetSamples s) windowSamples in
  let surfaces' :=
    if decide (length nextSurfaces = 0)%nat then surfacesState s
    else nextSurfaces in
  let blend' :=
    if decide (length nextSurfaces = 0)%nat then blend s
    else scheduleBlend nextSurfaces performance_now (blend s) in
  let offsetSamples' := (offsetSamples s + stepSamples)%nat in
  let offsetSamples' :=
    if decide (length (samples payload) <= offsetSamples' + windowSamples)%nat
    then 0%nat else offsetSamples' in
  {| offsetSamples := offsetSamples';
     surfacesState := surfaces';
     blend := showFirst surfaces' blend' |}.

(** The scan over a sequence of clock readings. *)
Definition runUpdates (payload : AudioPayload) (clock : list Qc)
    (s : Scanner) : Scanner :=
  fold_left (fun s performance_now => update payload performance_now s)
    clock s.

End Scan.

(** The scanner when the payload arrives. *)
Definition initialScanner : Scanner :=
  {| offsetSamples := 0;
     surfacesState := [];
     blend := {| displaySurfaces := [];
                 displayRef := [];
                 transitionRef := None;
                 rafRef := false |} |}.

(** The window at the current offset lies inside the payload. *)
Definition scanInv (payload : AudioPayload) (s : Scanner) : Prop :=
  (offsetSamples s + windowSamplesOf payload <= length (samples payload))%nat.

(** Every surface has [TIME_SLICES] rows of [FREQ_BINS] values. *)
Definition shaped (surfaces : list SurfaceMatrix) : Prop :=
  Forall (fun surface : SurfaceMatrix =>
            length surface = TIME_SLICES /\
            Forall (fun row => length row = FREQ_BINS) surface) surfaces.

(** The running maximum bounds every value taken so far, and is one of
    them unless it is still 0. *)
Definition bounded (st : Extraction) : Prop :=
  0 <= maxSoFar st /\
  Forall (Forall (Forall (fun v : Qc => 0 <= v /\ v <= maxSoFar st)))
    (surfaces st) /\
  (maxSoFar st = 0 \/
   exists surface row,
     surface ∈ surfaces st /\ row ∈ surface /\ maxSoFar st ∈ row).

(** *** Contour positions *)

(** [arr.indexOf (value)], [-1] when absent. *)
Definition indexOf (value : nat) (arr : list nat) : Z :=
  match list_find (fun v => v = value) arr with
  | Some (index, _) => Z.of_nat index
  | None => (-1)%Z
  end.

(** [arr.filter ((value, index, arr) => arr.indexOf (value) === index)]. *)
Definition firstOccurrences (arr : list nat) : list nat :=
  map snd
    (List.filter
       (fun p : nat * nat => Z.eqb (indexOf (snd p) arr) (Z.of_nat (fst p)))
       (imap (fun index value => (index, value)) arr)).

Definition contourIndex (count : nat) (ratio : Qc) : nat :=
  Z.to_nat
    (Z.min (Z.of_nat count - 1)
       (Z.max 0 (Math_round (ratio * (ofNat count - 1))))).

(** [contourFreqs] and [contourTimes], for the ratios of each. *)
Definition contourIndices (count : nat) (ratios : list Qc) : list nat :=
  if decide (1 < count)%nat
  then firstOccurrences (map (contourIndex count) ratios)
  else [].

Definition contourFreqs (freqCount : nat) : list nat :=
  contourIndices freqCount (map Q2Qc [0.25; 0.5; 0.75]%Q).

Definition contourTimes (timeLength : nat) : list nat :=
  contourIndices timeLength (map Q2Qc [0.3; 0.55; 0.8]%Q).

(** *** The rim of a surface *)



Section Geometry.

Context {M : MathLib}.




End Geometry.

End ContourView.

(** A payload of six samples at 8 kHz holding a single click. *)
Module ContourExamples.

Import Contours.

Definition click : AudioPayload :=
  {| samples := [0; 1; 0; 0; 0; 0]%Qc; sampleRate := Q2Qc 8000 |}.

End ContourExamples.

(* ================================================================= *)
(** * Part II: properties *)

(** ** Transfer of goals on [Qc] to [Q], where [lra] decides them *)

Section Transfer.
Local Open Scope Qc_scope.

Lemma this_Q2Qc (q : Q) : (this (Q2Qc q) == q)%Q.
Proof. apply Qred_correct. Qed.
Lemma this_plus (x y : Qc) : (this (x + y) == this x + this y)%Q.
Proof. apply Qred_correct. Qed.
Lemma this_mult (x y : Qc) : (this (x * y) == this x * this y)%Q.
Proof. apply Qred_correct. Qed.
Lemma this_opp (x : Qc) : (this (- x) == - this x)%Q.
Proof. apply Qred_correct. Qed.
Lemma this_minus (x y : Qc) : (this (x - y) == this x - this y)%Q.
Proof. unfold Qcminus. rewrite this_plus, this_opp. reflexivity. Qed.
Lemma this_inv (x : Qc) : (this (/ x) == / this x)%Q.
Proof. apply Qred_correct. Qed.
Lemma this_div (x y : Qc) : (this (x / y) == this x / this y)%Q.
Proof. unfold Qcdiv. rewrite this_mult, this_inv. reflexivity. Qed.
Lemma this_ofZ (z : Z) : (this (ofZ z) == inject_Z z)%Q.
Proof. apply Qred_correct. Qed.
Lemma Qc_eq_this (x y : Qc) : x = y <-> (this x == this y)%Q.
Proof. split; [intros ->; reflexivity | apply Qc_is_canon]. Qed.
Lemma Qc_le_this (x y : Qc) : x <= y <-> (this x <= this y)%Q.
Proof. reflexivity. Qed.
Lemma Qc_lt_this (x y : Qc) : x < y <-> (this x < this y)%Q.
Proof. reflexivity. Qed.

End Transfer.

Create Rewrite HintDb qc.
#[global] Hint Rewrite this_minus this_plus this_mult this_opp this_div
  this_inv this_ofZ this_Q2Qc : qc.


Ltac qc_push :=
  rewrite ?Qc_eq_this, ?Qc_le_this, ?Qc_lt_this in *;
  autorewrite with qc in *.
Ltac qc_lra := qc_push; lra.
Ltac qc_nra := qc_push; nra.

Section NumberFacts.
Local Open Scope Qc_scope.

Lemma Math_min_spec (a b : Qc) :
  (b < a /\ Math_min a b = b) \/ (a <= b /\ Math_min a b = a).
Proof.
  unfold Math_min. destruct (decide (b < a)) as [H|H]; [left|right]; split;
    auto. by apply Qcnot_lt_le.
Qed.

Lemma Math_max_spec (a b : Qc) :
  (a < b /\ Math_max a b = b) \/ (b <= a /\ Math_max a b = a).
Proof.
  unfold Math_max. destruct (decide (a < b)) as [H|H]; [left|right]; split;
    auto. by apply Qcnot_lt_le.
Qed.

(** Clamping a number into [[lo, hi]], as [Math.max lo (Math.min hi x)]. *)
Lemma clamp_range (lo hi x : Qc) :
  lo <= hi -> lo <= Math_max lo (Math_min hi x) <= hi.
Proof.
  intros Hlh.
  destruct (Math_min_spec hi x) as [[? ->]|[? ->]];
    [destruct (Math_max_spec lo x) as [[? ->]|[? ->]]
    |destruct (Math_max_spec lo hi) as [[? ->]|[? ->]]];
    qc_lra.
Qed.

Lemma clamp_id (lo hi x : Qc) :
  lo <= x <= hi -> Math_max lo (Math_min hi x) = x.
Proof.
  intros [Hl Hh].
  destruct (Math_min_spec hi x) as [[? ->]|[? ->]].
  - destruct (Math_max_spec lo x) as [[? ->]|[? ->]]; [done|qc_lra].
  - destruct (Math_max_spec lo hi) as [[? ->]|[? ->]]; qc_lra.
Qed.

Lemma floor_bounds (x : Qc) :
  (inject_Z (Math_floor x) <= x < inject_Z (Math_floor x) + 1)%Q.
Proof.
  unfold Math_floor. split; [apply Qfloor_le|].
  generalize (Qlt_floor x). rewrite inject_Z_plus. done.
Qed.


Lemma floor_nonneg (x : Qc) : 0 <= x -> (0 <= Math_floor x)%Z.
Proof.
  intros H. destruct (floor_bounds x) as [_ H2].
  assert (inject_Z (-1) < inject_Z (Math_floor x))%Q as Ha.
  { change (inject_Z (-1)) with (-1)%Q. qc_lra. }
  rewrite <- Zlt_Qlt in Ha. lia.
Qed.


Lemma Math_trunc_nonneg (x : Qc) : 0 <= x -> Math_trunc x = Math_floor x.
Proof.
  intros H. unfold Math_trunc. destruct (decide (x < 0)); [|done].
  exfalso. qc_lra.
Qed.

Lemma ToUint8_range (x : Qc) : (0 <= ToUint8 x < 256)%Z.
Proof. unfold ToUint8. apply Z.mod_pos_bound. lia. Qed.


Lemma ToUint8f_range (x : float) : (0 <= ToUint8f x < 256)%Z.
Proof. destruct x; simpl; [apply ToUint8_range|lia]. Qed.

Lemma Qc_div_nonneg (a b : Qc) : 0 <= a -> 0 < b -> 0 <= a / b.
Proof. intros Ha Hb. qc_push. apply Qle_shift_div_l; lra. Qed.

(** The remainder of a non-negative dividend by a positive divisor is the
    mathematical [a mod b]. *)
Lemma js_rem_floor (a b : Qc) :
  0 <= a -> 0 < b -> js_rem a b = a - b * ofZ (Math_floor (a / b)).
Proof.
  intros Ha Hb. unfold js_rem.
  by rewrite Math_trunc_nonneg by by apply Qc_div_nonneg.
Qed.

Lemma js_rem_range (a b : Qc) : 0 <= a -> 0 < b -> 0 <= js_rem a b /\ js_rem a b < b.
Proof.
  intros Ha Hb. rewrite js_rem_floor by done.
  destruct (floor_bounds (a / b)) as [H1 H2].
  assert (this (a / b) * this b == this a)%Q as Hq.
  { rewrite this_div. field. qc_push. lra. }
  set (q := this (a / b)) in *.
  set (f := inject_Z (Math_floor (a / b))) in *.
  qc_push. fold f. split; nra.
Qed.


End NumberFacts.

(* ================================================================= *)
(** ** The rational instance satisfies the laws *)

Section ApproxLaws.

Import Approx.
Local Open Scope Qc_scope.

Lemma fix12_le (x : Qc) : fix12 x <= x.
Proof.
  unfold fix12. destruct (floor_bounds (x * Q2Qc 4096)) as [H _].
  qc_push. apply Qle_shift_div_r; lra.
Qed.

Lemma fix12_nonneg (x : Qc) : 0 <= x -> 0 <= fix12 x.
Proof.
  intros Hx. unfold fix12. apply Qc_div_nonneg; [|done].
  assert (0 <= Math_floor (x * Q2Qc 4096))%Z as H
    by (apply floor_nonneg; qc_lra).
  rewrite Zle_Qle in H. qc_push. exact H.
Qed.

Lemma fix12_one : fix12 1 = 1.
Proof. apply Qc_is_canon. reflexivity. Qed.

Lemma sqrt_nonneg (x : Qc) : 0 <= sqrt x.
Proof.
  unfold sqrt. apply Qc_div_nonneg; [|done].
  pose proof (Z.sqrt_nonneg (Math_floor (x * Q2Qc 1000000000000))) as H.
  rewrite Zle_Qle in H. qc_push. exact H.
Qed.

Lemma pow_one (y : Qc) : pow 1 y = 1.
Proof.
  unfold pow. destruct (decide (1 <= 0)) as [H|_]; [by exfalso|].
  assert (1 / (y + (1 - y) * 1) = 1) as -> by (qc_push; field; lra).
  apply fix12_one.
Qed.

Lemma pow_unit (x y : Qc) :
  0 <= x <= 1 -> 0 <= y -> 0 <= pow x y <= 1.
Proof.
  intros [Hx0 Hx1] Hy. unfold pow.
  destruct (decide (x <= 0)) as [H|H]; [done|].
  apply Qcnot_le_lt in H.
  assert (x <= y + (1 - y) * x) as Hd by qc_nra.
  assert (0 < y + (1 - y) * x) as Hp by (by eapply Qclt_le_trans).
  set (d := y + (1 - y) * x) in *. clearbody d.
  split.
  - apply fix12_nonneg, Qc_div_nonneg; done.
  - eapply Qcle_trans; [apply fix12_le|].
    qc_push. apply Qle_shift_div_r; lra.
Qed.

#[export] Instance rationalMath_laws : MathLaws rationalMath := {|
  JS.sqrt_nonneg := sqrt_nonneg;
  JS.pow_one := pow_one;
  JS.pow_unit := pow_unit
|}.

End ApproxLaws.

(* ================================================================= *)
(** ** The virtual clock and the analyser *)

Section AnalyserFacts.

Import Spectrogram.
Local Open Scope Qc_scope.

Context (cfg : Config) {M : MathLib}.


Lemma ofNat_pos (n : nat) : (0 < n)%nat -> 0 < ofNat n.
Proof.
  intros H. unfold ofNat. qc_push. change 0%Q with (inject_Z 0).
  rewrite <- Zlt_Qlt. lia.
Qed.

Lemma Qc_div_pos (a b : Qc) : 0 < a -> 0 < b -> 0 < a / b.
Proof. intros Ha Hb. qc_push. apply Qlt_shift_div_l; lra. Qed.

Lemma duration_pos (buffer : AudioBuffer) :
  wfBuffer buffer -> 0 < duration buffer.
Proof.
  intros [Hr Hl]. unfold duration. apply Qc_div_pos; [|done].
  by apply ofNat_pos.
Qed.

Lemma time_nonneg (performance_now : Qc) :
  0 <= performance_now -> 0 <= performance_now / Q2Qc 1000.
Proof. intros H. by apply Qc_div_nonneg. Qed.

Lemma visualOffset_range (buffer : AudioBuffer) (performance_now : Qc) :
  wfBuffer buffer -> 0 <= performance_now ->
  0 <= visualOffset buffer performance_now /\
  visualOffset buffer performance_now < duration buffer.
Proof.
  intros Hb Hn. unfold visualOffset.
  apply js_rem_range; [by apply time_nonneg|by apply duration_pos].
Qed.

Lemma startIndex_nonneg (buffer : AudioBuffer) (performance_now : Qc) :
  wfBuffer buffer -> 0 <= performance_now ->
  (0 <= startIndexAt buffer performance_now)%Z.
Proof.
  intros Hb Hn. unfold startIndexAt. apply floor_nonneg.
  destruct (visualOffset_range buffer performance_now Hb Hn) as [H0 _].
  destruct Hb as [Hr _]. qc_nra.
Qed.


(** *** [fill] *)

Lemma length_fill {A} (v : A) s e l : length (fill v s e l) = length l.
Proof. unfold fill. by rewrite length_imap. Qed.

Lemma lookup_fill {A} (v : A) s e l i :
  fill v s e l !! i
  = (fun x => if decide (s <= i < e)%nat then v else x) <$> l !! i.
Proof. unfold fill. by rewrite list_lookup_imap. Qed.

Lemma lookup_fill_in {A} (v : A) e l i :
  (i < e)%nat -> (i < length l)%nat -> fill v 0 e l !! i = Some v.
Proof.
  intros Hi Hl. rewrite lookup_fill.
  destruct (lookup_lt_is_Some_2 l i Hl) as [x ->]. simpl.
  destruct (decide (0 <= i < e)%nat); [done|lia].
Qed.

Lemma lookup_fill_out {A} (v : A) s e l i :
  (e <= i)%nat -> fill v s e l !! i = l !! i.
Proof.
  intros Hi. rewrite lookup_fill. destruct (l !! i); [simpl|done].
  destruct (decide (s <= i < e)%nat); [lia|done].
Qed.

Lemma Forall_fill {A} (P : A -> Prop) (v : A) s e l :
  P v -> Forall P l -> Forall P (fill v s e l).
Proof.
  intros Hv Hl. apply Forall_lookup. intros i x. rewrite lookup_fill.
  destruct (l !! i) as [y|] eqn:Hy; [simpl|done].
  intros [= <-]. destruct (decide _); [done|].
  by eapply Forall_lookup_1.
Qed.

(** *** The transform of one bin *)

Lemma dft_fold_reads channelData startIndex k ns acc :
  reads (fold_left (dftStep cfg channelData startIndex k) ns acc)
  = reads acc ++ map (fun n => (startIndex + Z.of_nat n)%Z) ns.
Proof.
  revert acc. induction ns as [|n ns IH]; intros acc; simpl.
  - by rewrite app_nil_r.
  - rewrite IH. simpl. by rewrite <- app_assoc.
Qed.

Lemma dft_reads channelData startIndex k :
  reads (dft cfg channelData startIndex k)
  = map (fun n => (startIndex + Z.of_nat n)%Z) (seq 0 (fftSize cfg)).
Proof. unfold dft. by rewrite dft_fold_reads. Qed.

Lemma readSample_defined channelData (i : Z) :
  (0 <= i < Z.of_nat (length channelData))%Z ->
  is_Some (readSample channelData i).
Proof.
  intros [H0 H1]. unfold readSample. destruct (decide (i < 0)%Z); [lia|].
  apply lookup_lt_is_Some_2. lia.
Qed.

Lemma dft_fold_defined channelData startIndex k ns acc :
  (forall n, n ∈ ns ->
     (0 <= startIndex + Z.of_nat n < Z.of_nat (length channelData))%Z) ->
  is_Some (real acc) -> is_Some (imag acc) ->
  is_Some (real (fold_left (dftStep cfg channelData startIndex k) ns acc)) /\
  is_Some (imag (fold_left (dftStep cfg channelData startIndex k) ns acc)).
Proof.
  revert acc. induction ns as [|n ns IH]; intros acc Hns Hr Hi; simpl.
  - done.
  - apply IH.
    + intros m Hm. apply Hns. by right.
    + destruct (readSample_defined channelData (startIndex + Z.of_nat n))
        as [s Hs]; [apply Hns; by left|].
      destruct Hr as [r Hr]. simpl. rewrite Hs, Hr. by eexists.
    + destruct (readSample_defined channelData (startIndex + Z.of_nat n))
        as [s Hs]; [apply Hns; by left|].
      destruct Hi as [i Hi]. simpl. rewrite Hs, Hi. by eexists.
Qed.

(** With the window inside the buffer no accumulator is [NaN]. *)
Lemma dft_defined channelData startIndex k :
  (0 <= startIndex)%Z ->
  (startIndex + Z.of_nat (fftSize cfg) <= Z.of_nat (length channelData))%Z ->
  is_Some (real (dft cfg channelData startIndex k)) /\
  is_Some (imag (dft cfg channelData startIndex k)).
Proof.
  intros H0 H1. unfold dft. apply dft_fold_defined; simpl; [|done..].
  intros n Hn. apply elem_of_seq in Hn. lia.
Qed.

Lemma byteValueOf_range (acc : Acc) :
  is_Some (real acc) -> is_Some (imag acc) ->
  inByteRange (byteValueOf cfg acc).
Proof.
  intros [r Hr] [i Hi]. unfold byteValueOf. rewrite Hr, Hi. simpl.
  eexists. split; [reflexivity|].
  apply (clamp_range 0 (Q2Qc 255)). done.
Qed.

Lemma smoothedValueOf_range prevData k byteValue :
  wfConfig cfg ->
  inByteRange (prevAt prevData k) -> inByteRange byteValue ->
  inByteRange (smoothedValueOf cfg prevData k byteValue).
Proof.
  intros (Hs0 & Hs1 & _) (p & Hp & Hp0 & Hp1) (b & Hb & Hb0 & Hb1).
  unfold smoothedValueOf. rewrite Hp, Hb. simpl.
  eexists. split; [reflexivity|].
  set (s := SMOOTHING_CONSTANT cfg) in *. clearbody s.
  split; qc_nra.
Qed.

Lemma smoothedValueOf_ext prevData prevData' k byteValue :
  prevData !! k = prevData' !! k ->
  smoothedValueOf cfg prevData k byteValue
  = smoothedValueOf cfg prevData' k byteValue.
Proof. intros H. unfold smoothedValueOf, prevAt. by rewrite H. Qed.

End AnalyserFacts.

(* ----------------------------------------------------------------- *)
(** *** The loop over bins *)

Section AnalyserLoop.

Import Spectrogram.
Local Open Scope Qc_scope.

Context (cfg : Config) {M : MathLib}.

Abbreviation binsFrom cd si ks st := (fold_left (binStep cfg cd si) ks st).

Lemma binStep_fold_length cd si ks st :
  length (l_target (binsFrom cd si ks st)) = length (l_target st) /\
  length (l_prevData (binsFrom cd si ks st)) = length (l_prevData st).
Proof.
  revert st. induction ks as [|k ks IH]; intros st; simpl; [done|].
  destruct (IH (binStep cfg cd si st k)) as [-> ->]. simpl.
  by rewrite !length_insert.
Qed.

Lemma binStep_fold_reads cd si ks st :
  l_reads (binsFrom cd si ks st)
  = l_reads st ++ concat (map (fun k => reads (dft cfg cd si k)) ks).
Proof.
  revert st. induction ks as [|k ks IH]; intros st; simpl.
  - by rewrite app_nil_r.
  - rewrite IH. simpl. by rewrite <- app_assoc.
Qed.

Lemma binStep_fold_other cd si ks st k :
  k ∉ ks ->
  l_target (binsFrom cd si ks st) !! k = l_target st !! k /\
  l_prevData (binsFrom cd si ks st) !! k = l_prevData st !! k.
Proof.
  revert st. induction ks as [|a ks IH]; intros st Hk; simpl; [done|].
  apply not_elem_of_cons in Hk as [Hne Hk].
  destruct (IH (binStep cfg cd si st a) Hk) as [-> ->]. simpl.
  by rewrite !list_lookup_insert_ne by done.
Qed.

(** Each bin of the loop is written once, from the value its own slot of
    [prevData] held before the loop. *)
Lemma binStep_fold_at cd si ks st k :
  NoDup ks -> k ∈ ks ->
  (k < length (l_target st))%nat -> (k < length (l_prevData st))%nat ->
  let smoothedValue :=
    smoothedValueOf cfg (l_prevData st) k (byteValueOf cfg (dft cfg cd si k)) in
  l_target (binsFrom cd si ks st) !! k = Some (ToUint8f smoothedValue) /\
  l_prevData (binsFrom cd si ks st) !! k = Some smoothedValue.
Proof.
  revert st. induction ks as [|a ks IH]; intros st Hnd Hk Ht Hp; simpl.
  - by apply elem_of_nil in Hk.
  - apply NoDup_cons in Hnd as [Ha Hnd].
    apply elem_of_cons in Hk as [->|Hk].
    + destruct (binStep_fold_other cd si ks (binStep cfg cd si st a) a Ha)
        as [-> ->]. simpl.
      by rewrite !list_lookup_insert_eq by done.
    + assert (a <> k) as Hne by (intros ->; done).
      destruct (IH (binStep cfg cd si st a) Hnd Hk) as [-> ->];
        simpl; rewrite ?length_insert; try done.
      by rewrite (smoothedValueOf_ext cfg _ (l_prevData st))
        by (by apply list_lookup_insert_ne).
Qed.

Lemma binStep_fold_target_range cd si ks st :
  Forall (fun v => 0 <= v < 256)%Z (l_target st) ->
  Forall (fun v => 0 <= v < 256)%Z (l_target (binsFrom cd si ks st)).
Proof.
  revert st. induction ks as [|k ks IH]; intros st H; simpl; [done|].
  apply IH. simpl. apply Forall_insert; [done|apply ToUint8f_range].
Qed.

Lemma binStep_fold_prev_range cd si ks st :
  wfConfig cfg ->
  (0 <= si)%Z -> (si + Z.of_nat (fftSize cfg) <= Z.of_nat (length cd))%Z ->
  Forall inByteRange (l_prevData st) ->
  Forall inByteRange (l_prevData (binsFrom cd si ks st)).
Proof.
  intros Hc H0 H1. revert st.
  induction ks as [|k ks IH]; intros st H; simpl; [done|].
  apply IH. simpl.
  destruct (decide (k < length (l_prevData st))%nat) as [Hk|Hk].
  - apply Forall_insert; [done|].
    destruct (lookup_lt_is_Some_2 _ _ Hk) as [p Hp].
    apply smoothedValueOf_range; [done| |].
    + unfold prevAt. rewrite Hp. simpl. by eapply Forall_lookup_1.
    + destruct (dft_defined cfg cd si k H0 H1). by apply byteValueOf_range.
  - rewrite list_insert_ge by lia. done.
Qed.

Lemma cutoffBinOf_le (buffer : AudioBuffer) (binCount : nat) :
  (cutoffBinOf cfg buffer binCount <= binCount)%nat.
Proof. unfold cutoffBinOf. destruct (LOW_FREQUENCY_CUTOFF_HZ cfg); lia. Qed.

(** *** One call *)

Lemma computeFrequencyData_skip buffer performance_now st :
  (startIndexAt buffer performance_now + Z.of_nat (fftSize cfg)
   >= Z.of_nat (length (channelData buffer)))%Z ->
  computeFrequencyData cfg buffer performance_now st
  = {| result := {| targetArray := targetArray st;
                    prevFrequencyDataRef := Some (prevView st) |};
       sampleReads := [] |}.
Proof.
  intros H. unfold computeFrequencyData.
  destruct (decide _) as [_|Hn]; [done|by destruct Hn].
Qed.

Lemma computeFrequencyData_run buffer performance_now st :
  ~ (startIndexAt buffer performance_now + Z.of_nat (fftSize cfg)
     >= Z.of_nat (length (channelData buffer)))%Z ->
  let binCount := Nat.min (FREQUENCY_BINS cfg) (length (targetArray st)) in
  let cutoffBin := cutoffBinOf cfg buffer binCount in
  let final :=
    binsFrom (channelData buffer) (startIndexAt buffer performance_now)
      (seq cutoffBin (binCount - cutoffBin)) (filledFrom cfg buffer st) in
  computeFrequencyData cfg buffer performance_now st
  = {| result := {| targetArray := l_target final;
                    prevFrequencyDataRef := Some (l_prevData final) |};
       sampleReads := l_reads final |}.
Proof.
  intros H. unfold computeFrequencyData.
  destruct (decide _) as [Hn|_]; [by destruct H|done].
Qed.

Lemma filledFrom_facts buffer st :
  let binCount := Nat.min (FREQUENCY_BINS cfg) (length (targetArray st)) in
  let cutoffBin := cutoffBinOf cfg buffer binCount in
  length (l_target (filledFrom cfg buffer st)) = length (targetArray st) /\
  length (l_prevData (filledFrom cfg buffer st)) = length (prevView st) /\
  l_reads (filledFrom cfg buffer st) = [] /\
  (forall k, (k < cutoffBin)%nat ->
     l_target (filledFrom cfg buffer st) !! k = Some 0%Z) /\
  (forall k, (cutoffBin <= k)%nat ->
     l_target (filledFrom cfg buffer st) !! k = targetArray st !! k /\
     l_prevData (filledFrom cfg buffer st) !! k = prevView st !! k).
Proof.
  intros binCount cutoffBin. unfold filledFrom. fold binCount cutoffBin.
  pose proof (cutoffBinOf_le buffer binCount) as Hle.
  destruct (decide (0 < cutoffBin)%nat) as [Hc|Hc]; simpl.
  - rewrite !length_fill. repeat split; try done.
    + intros k Hk. apply lookup_fill_in; [done|].
      unfold cutoffBin, binCount in *. lia.
    + by apply lookup_fill_out.
    + by apply lookup_fill_out.
  - repeat split; try done. intros k Hk. lia.
Qed.

Lemma filledFrom_range buffer st :
  Forall (fun v => 0 <= v < 256)%Z (targetArray st) ->
  Forall inByteRange (prevView st) ->
  Forall (fun v => 0 <= v < 256)%Z (l_target (filledFrom cfg buffer st)) /\
  Forall inByteRange (l_prevData (filledFrom cfg buffer st)).
Proof.
  intros Ht Hp. unfold filledFrom. destruct (decide _); simpl; [|done].
  split; apply Forall_fill; try done.
  exists 0. repeat split; done.
Qed.

Lemma initialAnalyser_inv buffer :
  wfConfig cfg -> analyserInv cfg buffer (initialAnalyser cfg).
Proof.
  intros (_ & _ & _ & Hb & _). unfold analyserInv, initialAnalyser, prevView.
  simpl. rewrite !length_replicate. repeat split.
  - apply Forall_replicate. lia.
  - intros k Hk. apply lookup_replicate_2.
    pose proof (cutoffBinOf_le buffer (FREQUENCY_BINS cfg)). lia.
  - apply Forall_replicate. exists 0. repeat split; done.
Qed.

Lemma computeFrequencyData_inv buffer performance_now st :
  wfConfig cfg -> wfBuffer buffer -> 0 <= performance_now ->
  analyserInv cfg buffer st ->
  analyserInv cfg buffer
    (result (computeFrequencyData cfg buffer performance_now st)).
Proof.
  intros Hc Hb Hn (Hlen & Hrange & Hcut & Hplen & Hprange).
  destruct (decide (startIndexAt buffer performance_now
                    + Z.of_nat (fftSize cfg)
                    >= Z.of_nat (length (channelData buffer)))%Z) as [Hg|Hg].
  - rewrite computeFrequencyData_skip by done. by repeat split.
  - rewrite computeFrequencyData_run by done. cbv zeta.
    assert (Nat.min (FREQUENCY_BINS cfg) (length (targetArray st))
            = FREQUENCY_BINS cfg) as Hmin.
    { destruct Hc as (_ & _ & _ & Hle & _). lia. }
    rewrite Hmin.
    pose proof (filledFrom_facts buffer st) as Hf. cbv zeta in Hf.
    rewrite Hmin in Hf. destruct Hf as (Hfl & Hfp & _ & Hfz & _).
    destruct (filledFrom_range buffer st Hrange Hprange) as [Hfr Hfpr].
    set (c := cutoffBinOf cfg buffer (FREQUENCY_BINS cfg)) in *.
    set (final := binsFrom _ _ _ _).
    destruct (binStep_fold_length (channelData buffer)
                (startIndexAt buffer performance_now)
                (seq c (FREQUENCY_BINS cfg - c)) (filledFrom cfg buffer st))
      as [Hl1 Hl2].
    fold final in Hl1, Hl2.
    unfold analyserInv, prevView. simpl. repeat split.
    + by rewrite Hl1, Hfl.
    + by apply binStep_fold_target_range.
    + intros k Hk.
      destruct (binStep_fold_other (channelData buffer)
                  (startIndexAt buffer performance_now)
                  (seq c (FREQUENCY_BINS cfg - c)) (filledFrom cfg buffer st) k)
        as [Ho _].
      { rewrite elem_of_seq. lia. }
      fold final in Ho. rewrite Ho. by apply Hfz.
    + by rewrite Hl2, Hfp.
    + apply binStep_fold_prev_range; try done.
      * by apply startIndex_nonneg.
      * lia.
Qed.


(** The reads of a call lie inside the buffer. *)
Lemma computeFrequencyData_reads buffer performance_now st :
  wfBuffer buffer -> 0 <= performance_now ->
  Forall (fun i => 0 <= i < Z.of_nat (length (channelData buffer)))%Z
    (sampleReads (computeFrequencyData cfg buffer performance_now st)).
Proof.
  intros Hb Hn.
  destruct (decide (startIndexAt buffer performance_now
                    + Z.of_nat (fftSize cfg)
                    >= Z.of_nat (length (channelData buffer)))%Z) as [Hg|Hg].
  - rewrite computeFrequencyData_skip by done. simpl. constructor.
  - rewrite computeFrequencyData_run by done. cbv zeta. simpl.
    rewrite binStep_fold_reads.
    destruct (filledFrom_facts buffer st) as (_ & _ & -> & _). simpl.
    pose proof (startIndex_nonneg buffer performance_now Hb Hn) as H0.
    apply Forall_concat, Forall_map, Forall_forall. intros k _. simpl.
    rewrite dft_reads. apply Forall_map, Forall_forall. intros n Hin.
    apply elem_of_seq in Hin. simpl. lia.
Qed.

End AnalyserLoop.

(* ----------------------------------------------------------------- *)
(** *** Frames, skipped ticks and reads *)

Section AnalyserClaims.

Import Spectrogram.
Local Open Scope Qc_scope.

Lemma shipped_wfConfig (cfg : Config) : shipped cfg -> wfConfig cfg.
Proof.
  intros [->| ->]; unfold wfConfig, frequencyBinCount; simpl;
    repeat split; try done; try (apply Nat.leb_le; reflexivity); lia.
Qed.

Context (cfg : Config) {M : MathLib}.

Lemma ToUint8f_zero : ToUint8f (Some 0) = 0%Z.
Proof. reflexivity. Qed.




End AnalyserClaims.


(** C3.  Whenever the analysis window would read past the end of the sample
    buffer the call leaves the target array as it was, keeps the smoothing
    memory as later ticks read it, and reads no sample; and on every call
    each sample index read lies inside the buffer. *)
Theorem analyser_skips_window_past_end
    (cfg : Spectrogram.Config) (M : MathLib)
    (buffer : Spectrogram.AudioBuffer) (st : Spectrogram.AnalyserState)
    (performance_now : Qc) :
  wfBuffer buffer -> (0 <= performance_now)%Qc ->
  let r := Spectrogram.computeFrequencyData cfg buffer performance_now st in
  (windowPastEnd cfg buffer performance_now ->
     Spectrogram.targetArray (Spectrogram.result r)
     = Spectrogram.targetArray st /\
     Spectrogram.prevView (Spectrogram.result r) = Spectrogram.prevView st /\
     Spectrogram.sampleReads r = []) /\
  Forall (fun i =>
            (0 <= i < Z.of_nat (length (Spectrogram.channelData buffer)))%Z)
    (Spectrogram.sampleReads r).
Proof.
  intros Hb Hn r. split.
  - intros Hp. unfold r, windowPastEnd in *.
    rewrite computeFrequencyData_skip by lia. done.
  - by apply computeFrequencyData_reads.
Qed.


Lemma analyser_skip_witness :
  windowPastEnd Spectrogram.primary Examples.silence (Q2Qc 60) /\
  Spectrogram.targetArray
    (Spectrogram.result
       (Spectrogram.computeFrequencyData Spectrogram.primary
          (M := Approx.rationalMath) Examples.silence (Q2Qc 60)
          (Spectrogram.initialAnalyser Spectrogram.primary)))
  = Spectrogram.targetArray (Spectrogram.initialAnalyser Spectrogram.primary).
Proof.
  assert (wfBuffer Examples.silence) as Hb.
  { split; [reflexivity|]. apply Nat.ltb_lt. vm_compute. reflexivity. }
  assert (windowPastEnd Spectrogram.primary Examples.silence (Q2Qc 60)) as Hw.
  { unfold windowPastEnd. apply Z.lt_gt, Z.ltb_lt. vm_compute. reflexivity. }
  split; [exact Hw|].
  apply (analyser_skips_window_past_end Spectrogram.primary
           Approx.rationalMath Examples.silence
           (Spectrogram.initialAnalyser Spectrogram.primary) (Q2Qc 60)).
  - exact Hb.
  - discriminate.
  - exact Hw.
Defined.

(* ----------------------------------------------------------------- *)
(** *** The virtual playback clock *)



(* ----------------------------------------------------------------- *)
(** *** What a frame depends on *)

Section BinValue.

Import Spectrogram.
Local Open Scope Qc_scope.

Context (cfg : Config) {M : MathLib}.

(** The value a computing call leaves in a bin at or above the cutoff: the
    blend of the value its slot of the smoothing memory held before the call
    with the clamped decibel value of the current window. *)
Lemma computeFrequencyData_bin buffer performance_now st k :
  wfConfig cfg -> analyserInv cfg buffer st ->
  ~ (startIndexAt buffer performance_now + Z.of_nat (fftSize cfg)
     >= Z.of_nat (length (channelData buffer)))%Z ->
  (cutoffBinOf cfg buffer (FREQUENCY_BINS cfg) <= k < FREQUENCY_BINS cfg)%nat ->
  let byteValue :=
    byteValueOf cfg (dft cfg (channelData buffer)
                       (startIndexAt buffer performance_now) k) in
  let st' := result (computeFrequencyData cfg buffer performance_now st) in
  prevView st' !! k
  = Some (smoothedValueOf cfg (prevView st) k byteValue) /\
  targetArray st' !! k
  = Some (ToUint8f (smoothedValueOf cfg (prevView st) k byteValue)).
Proof.
  intros Hc (Hlen & _ & _ & Hplen & _) Hg Hk byteValue st'.
  unfold st'. rewrite computeFrequencyData_run by done. cbv zeta.
  assert (Nat.min (FREQUENCY_BINS cfg) (length (targetArray st))
          = FREQUENCY_BINS cfg) as Hmin.
  { destruct Hc as (_ & _ & _ & Hle & _). lia. }
  pose proof (filledFrom_facts cfg buffer st) as Hf. cbv zeta in Hf.
  rewrite Hmin in *. destruct Hf as (Hfl & Hfp & _ & _ & Hfo).
  assert (FREQUENCY_BINS cfg <= frequencyBinCount cfg)%nat as Hb
    by (by destruct Hc as (_ & _ & _ & ? & _)).
  set (c := cutoffBinOf cfg buffer (FREQUENCY_BINS cfg)) in *.
  destruct (binStep_fold_at cfg (channelData buffer)
              (startIndexAt buffer performance_now)
              (seq c (FREQUENCY_BINS cfg - c)) (filledFrom cfg buffer st) k)
    as [Ht Hp].
  { apply NoDup_seq. }
  { apply elem_of_seq. lia. }
  { lia. }
  { lia. }
  unfold prevView at 1. simpl. rewrite Ht, Hp.
  destruct (Hfo k) as [_ Hsame]; [lia|].
  rewrite (smoothedValueOf_ext cfg _ (prevView st)) by done. done.
Qed.

End BinValue.

(** C9, as amended.  One tick is a function of the clock reading, the asset
    and the smoothing memory of the pipeline: two components that agree on
    the asset, the analyser arrays, the smoothed row and the history produce
    the same analyser arrays, smoothed row and history, whatever their audio
    engines are, and the tick leaves the engine as it was. *)
Theorem frame_determined_by_time_asset_and_memory
    (cfg : Spectrogram.Config) (M : MathLib) (performance_now : Qc)
    (c1 c2 : Spectrogram.Component) :
  Spectrogram.audioBuffer c1 = Spectrogram.audioBuffer c2 ->
  Spectrogram.analyser c1 = Spectrogram.analyser c2 ->
  Spectrogram.smoothedRow c1 = Spectrogram.smoothedRow c2 ->
  Spectrogram.hasSmoothedRow c1 = Spectrogram.hasSmoothedRow c2 ->
  Spectrogram.spectrogramData c1 = Spectrogram.spectrogramData c2 ->
  let c1' := Spectrogram.updateSpectrogram cfg performance_now c1 in
  let c2' := Spectrogram.updateSpectrogram cfg performance_now c2 in
  Spectrogram.analyser c1' = Spectrogram.analyser c2' /\
  Spectrogram.smoothedRow c1' = Spectrogram.smoothedRow c2' /\
  Spectrogram.spectrogramData c1' = Spectrogram.spectrogramData c2' /\
  Spectrogram.engine c1' = Spectrogram.engine c1 /\
  Spectrogram.engine c2' = Spectrogram.engine c2.
Proof.
  intros Hb Ha Hs Hh Hd c1' c2'.
  unfold c1', c2', Spectrogram.updateSpectrogram. simpl.
  rewrite Hb, Ha, Hs, Hh, Hd. done.
Qed.

Lemma frame_memory_witness :
  let c1 := Examples.loaded Examples.silence Examples.engineSuspended in
  let c2 := Examples.loaded Examples.silence Examples.engineRunning in
  Spectrogram.engine c1 <> Spectrogram.engine c2 /\
  Spectrogram.spectrogramData
    (Spectrogram.updateSpectrogram Spectrogram.primary
       (M := Approx.rationalMath) 0 c1)
  = Spectrogram.spectrogramData
      (Spectrogram.updateSpectrogram Spectrogram.primary
         (M := Approx.rationalMath) 0 c2).
Proof.
  intros c1 c2. split; [discriminate|].
  apply (frame_determined_by_time_asset_and_memory Spectrogram.primary
           Approx.rationalMath 0 c1 c2); reflexivity.
Defined.

(** The byte value of bin 10 of the square wave, at offset 0. *)
Lemma squareWave_bin10 :
  Spectrogram.byteValueOf Spectrogram.primary (M := Approx.rationalMath)
    (Spectrogram.dft Spectrogram.primary (M := Approx.rationalMath)
       (Spectrogram.channelData Examples.squareWave) 0 10)
  = Some (Q2Qc 255).
(* slow *)
Proof.
  match goal with |- ?l = _ => set (x := l) end.
  assert (this <$> x = Some (255 # 1)) as H by (vm_compute; reflexivity).
  destruct x as [b|]; [|discriminate]. injection H as H.
  f_equal. apply Qc_is_canon. rewrite H. reflexivity.
Qed.

(** C9, counterexample.  Same asset, same clock reading, two consecutive
    ticks from mount: bin 10 of the frame is 216 on the first tick and 249 on
    the second, because the second blends with what the first computed. *)
Lemma frame_depends_on_previous_tick :
  let first :=
    Spectrogram.result
      (Spectrogram.computeFrequencyData Spectrogram.primary
         (M := Approx.rationalMath) Examples.squareWave 0
         (Spectrogram.initialAnalyser Spectrogram.primary)) in
  let again :=
    Spectrogram.result
      (Spectrogram.computeFrequencyData Spectrogram.primary
         (M := Approx.rationalMath) Examples.squareWave 0 first) in
  Spectrogram.frame Spectrogram.primary first !! 10%nat = Some 216%Z /\
  Spectrogram.frame Spectrogram.primary again !! 10%nat = Some 249%Z /\
  Spectrogram.frame Spectrogram.primary first
  <> Spectrogram.frame Spectrogram.primary again.
Proof.
  intros first again.
  pose proof (shipped_wfConfig Spectrogram.primary (or_introl eq_refl)) as Hc.
  assert (wfBuffer Examples.squareWave) as Hb.
  { split; [reflexivity|]. apply Nat.ltb_lt. vm_compute. reflexivity. }
  assert (~ (Spectrogram.startIndexAt Examples.squareWave 0
             + Z.of_nat (Spectrogram.fftSize Spectrogram.primary)
             >= Z.of_nat (length (Spectrogram.channelData
                                    Examples.squareWave)))%Z) as Hg.
  { intros H. apply Z.ge_le, Z.leb_le in H. vm_compute in H. discriminate. }
  assert (Spectrogram.cutoffBinOf Spectrogram.primary Examples.squareWave
            (Spectrogram.FREQUENCY_BINS Spectrogram.primary) = 10%nat) as Hcut
    by (vm_compute; reflexivity).
  assert (Spectrogram.cutoffBinOf Spectrogram.primary Examples.squareWave
            (Spectrogram.FREQUENCY_BINS Spectrogram.primary) <= 10
          < Spectrogram.FREQUENCY_BINS Spectrogram.primary)%nat as Hk
    by (rewrite Hcut; simpl; lia).
  pose proof (initialAnalyser_inv Spectrogram.primary Examples.squareWave Hc)
    as Hinv0.
  assert (analyserInv Spectrogram.primary Examples.squareWave first) as Hinv1.
  { apply computeFrequencyData_inv; try done. }
  destruct (computeFrequencyData_bin Spectrogram.primary
              (M := Approx.rationalMath) Examples.squareWave 0
              (Spectrogram.initialAnalyser Spectrogram.primary) 10%nat
              Hc Hinv0 Hg Hk) as [Hp1 Ht1].
  destruct (computeFrequencyData_bin Spectrogram.primary
              (M := Approx.rationalMath) Examples.squareWave 0 first 10%nat
              Hc Hinv1 Hg Hk) as [_ Ht2].
  fold first in Hp1, Ht1. fold again in Ht2.
  assert (Spectrogram.startIndexAt Examples.squareWave 0 = 0%Z) as Hsi
    by (vm_compute; reflexivity).
  rewrite Hsi, squareWave_bin10 in Hp1, Ht1, Ht2.
  clearbody again. clearbody first.
  assert (Spectrogram.frame Spectrogram.primary first !! 10%nat
          = Some 216%Z) as H1.
  { unfold Spectrogram.frame. rewrite lookup_take_lt by (simpl; lia).
    rewrite Ht1. vm_compute. reflexivity. }
  assert (Spectrogram.frame Spectrogram.primary again !! 10%nat
          = Some 249%Z) as H2.
  { unfold Spectrogram.frame. rewrite lookup_take_lt by (simpl; lia).
    rewrite Ht2. unfold Spectrogram.smoothedValueOf, Spectrogram.prevAt.
    rewrite Hp1. vm_compute. reflexivity. }
  split; [exact H1|]. split; [exact H2|].
  intros Heq. rewrite Heq, H2 in H1. discriminate.
Qed.

(* ================================================================= *)
(** ** Smoothing and history *)

Section PipelineFacts.

Import Spectrogram.
Local Open Scope Qc_scope.

Context (cfg : Config) {M : MathLib}.

(** *** [copyWithin] and the rows of the history *)

Lemma length_copyWithin {A} target start end_ (data : list A) :
  length (copyWithin target start end_ data) = length data.
Proof.
  unfold copyWithin. rewrite !length_app, !length_take, !length_drop. lia.
Qed.




(** *** One pixel *)

Lemma length_writePixel p v data :
  length (writePixel p v data) = length data.
Proof. unfold writePixel. by rewrite !length_insert. Qed.

Lemma writePixel_lookup_out p v data q :
  (q < p \/ p + 4 <= q)%nat -> writePixel p v data !! q = data !! q.
Proof.
  intros H. unfold writePixel.
  rewrite !list_lookup_insert_ne by lia. done.
Qed.

Lemma writePixel_lookup_in p v data ch :
  (ch < 4)%nat -> (p + 3 < length data)%nat ->
  writePixel p v data !! (p + ch)%nat = pixelBytes v !! ch.
Proof.
  intros Hch Hp. unfold writePixel, pixelBytes.
  destruct ch as [|[|[|[|ch]]]]; [| | | |lia].
  - rewrite Nat.add_0_r. rewrite !list_lookup_insert_ne by lia.
    by rewrite list_lookup_insert_eq by lia.
  - rewrite !list_lookup_insert_ne by lia.
    by rewrite list_lookup_insert_eq by (rewrite ?length_insert; lia).
  - rewrite !list_lookup_insert_ne by lia.
    by rewrite list_lookup_insert_eq by (rewrite ?length_insert; lia).
  - by rewrite list_lookup_insert_eq by (rewrite ?length_insert; lia).
Qed.

(** *** The loop over the bins of a row *)

Abbreviation rowsFrom nb has bins st := (fold_left (rowStep cfg nb has) bins st).





(** *** [commitFrame] *)






End PipelineFacts.

(* ----------------------------------------------------------------- *)
(** *** The history over many ticks *)

Section HistoryFacts.

Import Spectrogram.
Local Open Scope Qc_scope.

Context (cfg : Config) {M : MathLib}.










End HistoryFacts.



(* ----------------------------------------------------------------- *)
(** *** Orientation of the frequency axis *)

Section VariantFacts.

Import Spectrogram.
Local Open Scope Qc_scope.

Context (cfg : Config) {M : MathLib}.

Abbreviation rows64 dataArray bins data :=
  (fold_left (Variant64.rowStep cfg dataArray) bins data).

Lemma variant_fold_length dataArray bins data :
  length (rows64 dataArray bins data) = length data.
Proof.
  revert data. induction bins as [|i bins IH]; intros data; simpl; [done|].
  rewrite IH. apply length_writePixel.
Qed.

Lemma variant_fold_other dataArray bins data q :
  (forall i, i ∈ bins -> (q < i * 4 \/ i * 4 + 4 <= q)%nat) ->
  rows64 dataArray bins data !! q = data !! q.
Proof.
  revert data. induction bins as [|a bins IH]; intros data Hq; simpl; [done|].
  rewrite IH by (intros i Hi; apply Hq; by right).
  apply writePixel_lookup_out, Hq. by left.
Qed.

Lemma variant_fold_at dataArray bins data i ch :
  NoDup bins -> i ∈ bins -> (ch < 4)%nat ->
  (forall j, j ∈ bins -> (j * 4 + 3 < length data)%nat) ->
  rows64 dataArray bins data !! (i * 4 + ch)%nat
  = pixelBytes (Variant64.normalizedAt cfg dataArray i) !! ch.
Proof.
  revert data. induction bins as [|a bins IH]; intros data Hnd Hi Hch Hlen.
  - by apply elem_of_nil in Hi.
  - simpl. apply NoDup_cons in Hnd as [Ha Hnd].
    apply elem_of_cons in Hi as [->|Hi].
    + rewrite variant_fold_other.
      * apply writePixel_lookup_in; [done|]. apply Hlen. by left.
      * intros j Hj. assert (j <> a) by (intros ->; done). lia.
    + apply IH; try done. intros j Hj.
      unfold Variant64.rowStep. rewrite length_writePixel.
      apply Hlen. by right.
Qed.

(** In the variant bin [i] is the red channel of pixel [i]. *)
Lemma variant_newest performance_now (v : Variant64.Component) i :
  (i < FREQUENCY_BINS cfg)%nat ->
  (ROW_BYTE_SIZE cfg <= length (Variant64.spectrogramData v))%nat ->
  let v' := Variant64.updateSpectrogram cfg performance_now v in
  texel cfg (Variant64.spectrogramData v') i 0
  = Some (ToUint8
            (Variant64.normalizedAt cfg
               (targetArray (Variant64.analyser v')) i * Q2Qc 255)).
Proof.
  intros Hi Hlen v'. unfold v', Variant64.updateSpectrogram, texel. simpl.
  replace (i * 4)%nat with (i * 4 + 0)%nat by lia.
  rewrite variant_fold_at; try done.
  - apply NoDup_seq.
  - apply elem_of_seq. lia.
  - lia.
  - intros j Hj. apply elem_of_seq in Hj. rewrite length_copyWithin.
    unfold ROW_BYTE_SIZE in Hlen. lia.
Qed.

Lemma variant_analyser_after performance_now (v : Variant64.Component) buffer :
  Variant64.audioBuffer v = Some buffer ->
  Variant64.analyser (Variant64.updateSpectrogram cfg performance_now v)
  = result (computeFrequencyData cfg buffer performance_now
              (Variant64.analyser v)).
Proof. intros H. unfold Variant64.updateSpectrogram. simpl. by rewrite H. Qed.

Lemma normalizedAt_lookup (dataArray : list Z) i m :
  (i < FREQUENCY_BINS cfg)%nat -> dataArray !! i = Some m ->
  Variant64.normalizedAt cfg dataArray i
  = Math_pow (ofZ m / Q2Qc 255) (Q2Qc 0.7).
Proof.
  intros Hi Hm. unfold Variant64.normalizedAt.
  pose proof (lookup_lt_Some _ _ _ Hm) as Hl.
  destruct (decide _) as [_|Hn]; [|lia]. by rewrite Hm.
Qed.

End VariantFacts.



(** The byte values of bins 0 and 63 of the square wave in the variant. *)
Lemma squareWave64_bin0 :
  Spectrogram.byteValueOf Spectrogram.variant64 (M := Approx.rationalMath)
    (Spectrogram.dft Spectrogram.variant64 (M := Approx.rationalMath)
       (Spectrogram.channelData Examples.squareWave) 0 0)
  = Some (Q2Qc (2289747 # 12500)).
(* slow *)
Proof.
  match goal with |- ?l = _ => set (x := l) end.
  assert (this <$> x = Some (2289747 # 12500)) as H
    by (vm_compute; reflexivity).
  destruct x as [b|]; [|discriminate]. injection H as H.
  f_equal. apply Qc_is_canon. rewrite H. reflexivity.
Qed.

Lemma squareWave64_bin63 :
  Spectrogram.byteValueOf Spectrogram.variant64 (M := Approx.rationalMath)
    (Spectrogram.dft Spectrogram.variant64 (M := Approx.rationalMath)
       (Spectrogram.channelData Examples.squareWave) 0 63)
  = Some (Q2Qc (4067743 # 25000)).
(* slow *)
Proof.
  match goal with |- ?l = _ => set (x := l) end.
  assert (this <$> x = Some (4067743 # 25000)) as H
    by (vm_compute; reflexivity).
  destruct x as [b|]; [|discriminate]. injection H as H.
  f_equal. apply Qc_is_canon. rewrite H. reflexivity.
Qed.

(** C5, counterexample.  The variant, first tick on the square wave: the
    analyser leaves 27 in bin 0 and 24 in bin 63; the newest row holds the
    pixel of bin 0 (36) at position 0 and the pixel of bin 63 (32) at
    position 63, so position [64 - 1 - 0] does not hold bin 0. *)
Lemma variant_row_is_not_flipped :
  let v' :=
    Variant64.updateSpectrogram Spectrogram.variant64
      (M := Approx.rationalMath) 0 (Examples.loaded64 Examples.squareWave) in
  let dataArray := Spectrogram.targetArray (Variant64.analyser v') in
  let row := Variant64.spectrogramData v' in
  dataArray !! 0%nat = Some 27%Z /\
  dataArray !! 63%nat = Some 24%Z /\
  Spectrogram.texel Spectrogram.variant64 row 0 0 = Some 36%Z /\
  Spectrogram.texel Spectrogram.variant64 row 63 0 = Some 32%Z /\
  Spectrogram.texel Spectrogram.variant64 row (64 - 1 - 0) 0
  <> Some (ToUint8
             (Variant64.normalizedAt Spectrogram.variant64
                (M := Approx.rationalMath) dataArray 0 * Q2Qc 255)%Qc).
Proof.
  intros v' dataArray row.
  pose proof (shipped_wfConfig Spectrogram.variant64 (or_intror eq_refl))
    as Hc.
  assert (~ (Spectrogram.startIndexAt Examples.squareWave 0
             + Z.of_nat (Spectrogram.fftSize Spectrogram.variant64)
             >= Z.of_nat (length (Spectrogram.channelData
                                    Examples.squareWave)))%Z) as Hg.
  { intros H. apply Z.ge_le, Z.leb_le in H. vm_compute in H. discriminate. }
  pose proof (initialAnalyser_inv Spectrogram.variant64 Examples.squareWave Hc)
    as Hinv.
  assert (Spectrogram.startIndexAt Examples.squareWave 0 = 0%Z) as Hsi
    by (vm_compute; reflexivity).
  assert (0 < Spectrogram.FREQUENCY_BINS Spectrogram.variant64)%nat as Hb0
    by (apply Nat.ltb_lt; reflexivity).
  assert (63 < Spectrogram.FREQUENCY_BINS Spectrogram.variant64)%nat as Hb63
    by (apply Nat.ltb_lt; reflexivity).
  assert (Spectrogram.cutoffBinOf Spectrogram.variant64 Examples.squareWave
            (Spectrogram.FREQUENCY_BINS Spectrogram.variant64) = 0%nat)
    as Hcut by reflexivity.
  assert (Spectrogram.ROW_BYTE_SIZE Spectrogram.variant64
          <= length (Variant64.spectrogramData
                       (Examples.loaded64 Examples.squareWave)))%nat as Hlen.
  { apply Nat.leb_le. vm_compute. reflexivity. }
  pose proof (variant_analyser_after Spectrogram.variant64
                (M := Approx.rationalMath) 0
                (Examples.loaded64 Examples.squareWave) Examples.squareWave
                eq_refl) as Han.
  change (Variant64.analyser (Examples.loaded64 Examples.squareWave))
    with (Spectrogram.initialAnalyser Spectrogram.variant64) in Han.
  fold v' in Han.
  destruct (computeFrequencyData_bin Spectrogram.variant64
              (M := Approx.rationalMath) Examples.squareWave 0
              (Spectrogram.initialAnalyser Spectrogram.variant64) 0%nat
              Hc Hinv Hg) as [_ H0]; [rewrite Hcut; lia|].
  destruct (computeFrequencyData_bin Spectrogram.variant64
              (M := Approx.rationalMath) Examples.squareWave 0
              (Spectrogram.initialAnalyser Spectrogram.variant64) 63%nat
              Hc Hinv Hg) as [_ H63]; [rewrite Hcut; lia|].
  rewrite Hsi, squareWave64_bin0, <- Han in H0.
  rewrite Hsi, squareWave64_bin63, <- Han in H63.
  fold dataArray in H0, H63.
  pose proof (variant_newest Spectrogram.variant64 (M := Approx.rationalMath)
                0 (Examples.loaded64 Examples.squareWave) 0 Hb0 Hlen) as T0.
  pose proof (variant_newest Spectrogram.variant64 (M := Approx.rationalMath)
                0 (Examples.loaded64 Examples.squareWave) 63 Hb63 Hlen) as T63.
  cbv zeta in T0, T63. fold v' in T0, T63. fold dataArray row in T0, T63.
  clearbody row. clearbody dataArray. clearbody v'.
  assert (dataArray !! 0%nat = Some 27%Z) as D0.
  { rewrite H0. vm_compute. reflexivity. }
  assert (dataArray !! 63%nat = Some 24%Z) as D63.
  { rewrite H63. vm_compute. reflexivity. }
  rewrite (normalizedAt_lookup _ _ _ 27%Z Hb0 D0) in T0.
  rewrite (normalizedAt_lookup _ _ _ 24%Z Hb63 D63) in T63.
  assert (Spectrogram.texel Spectrogram.variant64 row 0 0 = Some 36%Z) as P0.
  { rewrite T0. vm_compute. reflexivity. }
  assert (Spectrogram.texel Spectrogram.variant64 row 63 0 = Some 32%Z)
    as P63.
  { rewrite T63. vm_compute. reflexivity. }
  split; [exact D0|]. split; [exact D63|]. split; [exact P0|].
  split; [exact P63|].
  change (64 - 1 - 0)%nat with 63%nat. rewrite P63.
  rewrite (normalizedAt_lookup _ _ _ 27%Z Hb0 D0).
  vm_compute. discriminate.
Qed.

(* ----------------------------------------------------------------- *)
(** *** The spatial filter *)

Section SpatialFacts.

Import Spectrogram.
Local Open Scope Qc_scope.

Context (cfg : Config).

Lemma kernelTap_clamped (nb : list Qc) (i : nat) (smoothed : Qc) (k : nat) :
  (0 < FREQUENCY_BINS cfg)%nat ->
  kernelTap cfg nb i smoothed k
  = smoothed + clampedBin cfg nb (Z.of_nat i + (Z.of_nat k - 3))
               * default 0 (FREQUENCY_SMOOTH_KERNEL !! k).
Proof.
  intros Hn. unfold kernelTap, clampedBin. cbv zeta.
  change (Z.of_nat (length FREQUENCY_SMOOTH_KERNEL / 2)) with 3%Z.
  do 2 f_equal. f_equal. f_equal.
  repeat destruct (decide _); lia.
Qed.

(** The convolution, tap by tap. *)
Lemma smoothedAt_taps (nb : list Qc) (i : nat) :
  (0 < FREQUENCY_BINS cfg)%nat ->
  let tap (d : Z) := clampedBin cfg nb (Z.of_nat i + d) in
  smoothedAt cfg nb i
  = 0 + tap (-3)%Z * Q2Qc 0.03 + tap (-2)%Z * Q2Qc 0.08
    + tap (-1)%Z * Q2Qc 0.15 + tap 0%Z * Q2Qc 0.18 + tap 1%Z * Q2Qc 0.15
    + tap 2%Z * Q2Qc 0.08 + tap 3%Z * Q2Qc 0.03.
Proof.
  intros Hn tap. unfold smoothedAt.
  change (seq 0 (length FREQUENCY_SMOOTH_KERNEL)) with [0;1;2;3;4;5;6]%nat.
  cbn [fold_left]. rewrite !kernelTap_clamped by done. reflexivity.
Qed.

Lemma lookup_impulse (n j m : nat) :
  (m < n)%nat -> impulse n j !! m = Some (if decide (m = j) then 1 else 0).
Proof.
  intros Hm. unfold impulse. rewrite list_lookup_fmap.
  rewrite lookup_seq_lt by done. reflexivity.
Qed.

Lemma clampedBin_impulse (j : nat) (z : Z) :
  (0 < FREQUENCY_BINS cfg)%nat ->
  clampedBin cfg (impulse (FREQUENCY_BINS cfg) j) z
  = if decide (Z.max 0 (Z.min (Z.of_nat (FREQUENCY_BINS cfg) - 1) z)
               = Z.of_nat j)
    then 1 else 0.
Proof.
  intros Hn. unfold clampedBin. rewrite lookup_impulse by lia. simpl.
  repeat destruct (decide _); try done; lia.
Qed.

End SpatialFacts.

(** X15 (claim C7, as amended).
    The spatial filter of the 256-bin component is the
    convolution of the row with the fixed 7-tap kernel
    [0.03, 0.08, 0.15, 0.18, 0.15, 0.08, 0.03], whose weights sum to 0.70,
    with out-of-range taps clamped to the nearest edge bin, blended as 10%
    of the unfiltered value plus 90% of the filtered one.  A single impulse
    gives, at its own bin, [raw * (1 - mix) + w * mix] with [w] the sum of
    the taps that land on it: 0.18 for a bin that is not an edge (0.262),
    and 0.03 + 0.08 + 0.15 + 0.18 = 0.44 at bin 0 and at the last bin
    (0.496). *)
Theorem spatial_filter_kernel_and_impulse :
  let cfg := Spectrogram.primary in
  let n := Spectrogram.FREQUENCY_BINS cfg in
  length Spectrogram.FREQUENCY_SMOOTH_KERNEL = 7%nat /\
  Spectrogram.kernelSum = Q2Qc 0.7 /\
  (forall (nb : list Qc) (i : nat),
     let tap (d : Z) := Spectrogram.clampedBin cfg nb (Z.of_nat i + d) in
     Spectrogram.smoothedAt cfg nb i
     = (0 + tap (-3)%Z * Q2Qc 0.03 + tap (-2)%Z * Q2Qc 0.08
        + tap (-1)%Z * Q2Qc 0.15 + tap 0%Z * Q2Qc 0.18
        + tap 1%Z * Q2Qc 0.15 + tap 2%Z * Q2Qc 0.08
        + tap 3%Z * Q2Qc 0.03)%Qc /\
     Spectrogram.blendedFreqAt cfg nb i
     = (default 0 (nb !! i) * Q2Qc 0.1
        + Spectrogram.smoothedAt cfg nb i * Q2Qc 0.9)%Qc) /\
  (forall j, (0 < j < n - 1)%nat ->
     Spectrogram.blendedFreqAt cfg (Spectrogram.impulse n j) j
     = (1 * Q2Qc 0.1 + Q2Qc 0.18 * Q2Qc 0.9)%Qc) /\
  Spectrogram.blendedFreqAt cfg (Spectrogram.impulse n 0) 0
  = (1 * Q2Qc 0.1 + Q2Qc 0.44 * Q2Qc 0.9)%Qc /\
  Spectrogram.blendedFreqAt cfg (Spectrogram.impulse n (n - 1)) (n - 1)
  = (1 * Q2Qc 0.1 + Q2Qc 0.44 * Q2Qc 0.9)%Qc.
Proof.
  intros cfg n.
  assert (0 < Spectrogram.FREQUENCY_BINS cfg)%nat as Hn by (simpl; lia).
  split; [reflexivity|]. split; [by apply Qc_is_canon|].
  split; [|split; [|split]].
  - intros nb i tap. split; [by apply smoothedAt_taps|].
    unfold Spectrogram.blendedFreqAt. do 2 f_equal; by apply Qc_is_canon.
  - intros j Hj. unfold Spectrogram.blendedFreqAt.
    rewrite smoothedAt_taps by done. cbv zeta.
    rewrite !clampedBin_impulse by done. fold n.
    rewrite lookup_impulse by lia.
    assert (n = 256%nat) as Hz by reflexivity.
    repeat match goal with
    | |- context [decide ?P] =>
        first [rewrite (decide_True (P := P)) by lia
              |rewrite (decide_False (P := P)) by lia]
    end.
    apply Qc_is_canon. reflexivity.
  - apply Qc_is_canon. vm_compute. reflexivity.
  - apply Qc_is_canon. vm_compute. reflexivity.
Qed.

Lemma spatial_filter_witness :
  Spectrogram.blendedFreqAt Spectrogram.primary
    (Spectrogram.impulse 256 128) 128
  = Q2Qc 0.262.
Proof.
  destruct spatial_filter_kernel_and_impulse as (_ & _ & _ & H & _).
  assert (0 < 128 < Spectrogram.FREQUENCY_BINS Spectrogram.primary - 1)%nat
    as Hj by (simpl; lia).
  etransitivity; [exact (H 128%nat Hj)|].
  apply Qc_is_canon. reflexivity.
Defined.

(** C7, counterexample.  The kernel is not normalized, its weights sum to
    0.70; and an impulse in the middle of the row is blended to 0.262, not
    to [raw * (1 - mix) + kernelSum * mix], which is 0.73. *)
Lemma kernel_not_normalized :
  Spectrogram.kernelSum = Q2Qc 0.7 /\
  Spectrogram.kernelSum <> 1%Qc /\
  Spectrogram.blendedFreqAt Spectrogram.primary
    (Spectrogram.impulse 256 128) 128
  = Q2Qc 0.262 /\
  Spectrogram.blendedFreqAt Spectrogram.primary
    (Spectrogram.impulse 256 128) 128
  <> (1 * (1 - Spectrogram.FREQUENCY_SMOOTH_MIX)
      + Spectrogram.kernelSum * Spectrogram.FREQUENCY_SMOOTH_MIX)%Qc.
Proof.
  assert (Spectrogram.blendedFreqAt Spectrogram.primary
            (Spectrogram.impulse 256 128) 128 = Q2Qc 0.262) as H.
  { apply Qc_is_canon. vm_compute. reflexivity. }
  repeat split.
  - by apply Qc_is_canon.
  - intros Hk. apply Qc_eq_this in Hk. vm_compute in Hk. discriminate.
  - exact H.
  - rewrite H. intros Hk. apply Qc_eq_this in Hk. vm_compute in Hk.
    discriminate.
Qed.

(* ----------------------------------------------------------------- *)
(** *** The temporal filter *)

Section TemporalFacts.

Import Spectrogram.
Local Open Scope Qc_scope.






Context (cfg : Config) {M : MathLib}.





End TemporalFacts.




(* ================================================================= *)
(** ** The contour component: cross-fade *)

Section BlendFacts.

Import Contours ContourView.
Local Open Scope Qc_scope.

Lemma clamp01_cases (t : Qc) :
  (t <= 0 /\ Math_min 1 (Math_max 0 t) = 0) \/
  (0 <= t /\ t <= 1 /\ Math_min 1 (Math_max 0 t) = t) \/
  (1 <= t /\ Math_min 1 (Math_max 0 t) = 1).
Proof.
  destruct (Math_max_spec 0 t) as [[H1 ->]|[H1 ->]].
  - destruct (Math_min_spec 1 t) as [[H2 ->]|[H2 ->]].
    + right. left. repeat split; [qc_lra|qc_lra].
    + right. right. split; [done|reflexivity].
  - destruct (Math_min_spec 1 0) as [[H2 ->]|[H2 ->]].
    + left. split; [done|reflexivity].
    + exfalso. qc_lra.
Qed.

Lemma clamp01_range (t : Qc) :
  0 <= Math_min 1 (Math_max 0 t) /\ Math_min 1 (Math_max 0 t) <= 1.
Proof.
  destruct (clamp01_cases t) as [[? ->]|[(? & ? & ->)|[? ->]]];
    split; qc_lra.
Qed.






End BlendFacts.



(* ----------------------------------------------------------------- *)
(** *** The blend task *)

Section BlendTask.

Import Contours ContourView.
Local Open Scope Qc_scope.







End BlendTask.



(* ----------------------------------------------------------------- *)
(** *** Extraction of the layer set *)

Section ExtractionFacts.

Import Contours ContourView.
Local Open Scope Qc_scope.

Context {M : MathLib}.

Lemma length_subarray {A} (b e : nat) (l : list A) :
  length (subarray b e l) = Nat.min (e - b) (length l - b).
Proof. unfold subarray. by rewrite length_take, length_drop. Qed.

Lemma length_computeSpectrumSegment (segment : list Qc) (sr : Qc) :
  length (computeSpectrumSegment segment sr) = FREQ_BINS.
Proof.
  unfold computeSpectrumSegment. cbv zeta.
  by rewrite length_map, length_seq.
Qed.

Lemma computeSpectrumSegment_nonneg (L : MathLaws M)
    (segment : list Qc) (sr : Qc) :
  Forall (fun v => 0 <= v) (computeSpectrumSegment segment sr).
Proof.
  unfold computeSpectrumSegment. cbv zeta.
  apply Forall_map, Forall_forall. intros bin _. apply JS.sqrt_nonneg.
Qed.

(** Magnitude [bin] of a segment. *)
Lemma computeSpectrumSegment_bin (segment : list Qc) (sr : Qc) (bin : nat) :
  (bin < FREQ_BINS)%nat ->
  computeSpectrumSegment segment sr !! bin
  = Some
      (let freqSpan :=
         Math_max 1 (Math_min MAX_FREQ (sr / Q2Qc 2) - MIN_FREQ) in
       let freq := MIN_FREQ + (freqSpan * ofNat bin) / ofNat (FREQ_BINS - 1) in
       let angle := (Q2Qc 2 * Math_PI * freq) / sr in
       let p :=
         fold_left (phasorStep segment (Math_cos angle) (Math_sin angle))
           (seq 0 (length segment))
           {| cosValue := 1; sinValue := 0; real := 0; imag := 0 |} in
       Math_sqrt (real p * real p + imag p * imag p)).
Proof.
  intros Hb. unfold computeSpectrumSegment. cbv zeta.
  rewrite list_lookup_fmap, lookup_seq_lt by done. reflexivity.
Qed.

Abbreviation maxFrom values g :=
  (fold_left (fun globalMax value : Qc =>
                if decide (globalMax < value) then value else globalMax)
     values g).

Lemma maxFrom_spec (values : list Qc) (g : Qc) :
  g <= maxFrom values g /\
  Forall (fun v => v <= maxFrom values g) values /\
  (maxFrom values g = g \/ maxFrom values g ∈ values).
Proof.
  revert g. induction values as [|v values IH]; intros g; simpl.
  - repeat split; [apply Qcle_refl|constructor|by left].
  - destruct (decide (g < v)) as [Hlt|Hge].
    + destruct (IH v) as (H1 & H2 & H3). repeat split.
      * apply Qclt_le_weak in Hlt. by eapply Qcle_trans.
      * by constructor.
      * right. destruct H3 as [->|H3]; [left|by right].
    + apply Qcnot_lt_le in Hge.
      destruct (IH g) as (H1 & H2 & H3). repeat split.
      * done.
      * constructor; [by eapply Qcle_trans|done].
      * destruct H3 as [H3|H3]; [by left|by right; right].
Qed.

(** The values of a surface lie between 0 and [m]. *)
Abbreviation within m := (Forall (Forall (fun v : Qc => 0 <= v /\ v <= m))).

Lemma within_mono (m m' : Qc) (rows : SurfaceMatrix) :
  m <= m' -> within m rows -> within m' rows.
Proof.
  intros Hm H. eapply Forall_impl; [exact H|]. intros row Hrow.
  eapply Forall_impl; [exact Hrow|].
  intros v [H0 H1]. split; [done|by eapply Qcle_trans].
Qed.

(** One slice appends one row of [FREQ_BINS] values and raises the running
    maximum to the largest of them. *)
Lemma sliceStep_spec layer sr sliceLength st slice :
  let st' := sliceStep layer sr sliceLength st slice in
  exists row,
    surface st' = surface st ++ [row] /\
    length row = FREQ_BINS /\
    (forall L : MathLaws M, 0 <= globalMax st ->
       globalMax st <= globalMax st' /\
       Forall (fun v => 0 <= v /\ v <= globalMax st') row /\
       (globalMax st' = globalMax st \/ globalMax st' ∈ row)).
Proof.
  intros st'. unfold st', sliceStep.
  destruct (decide (length layer <= slice * sliceLength)%nat) as [Hout|Hin].
  - exists (replicate FREQ_BINS 0).
    split; [reflexivity|]. split; [apply length_replicate|].
    intros L Hg. cbn [globalMax].
    split; [apply Qcle_refl|]. split; [|by left].
    apply Forall_replicate. split; [apply Qcle_refl|done].
  - cbv zeta. cbn [surface globalMax].
    set (available := Nat.max 64 _).
    set (segment := subarray _ _ layer ++ replicate _ 0).
    exists (computeSpectrumSegment segment sr).
    split; [reflexivity|].
    split; [apply length_computeSpectrumSegment|].
    intros L Hg.
    destruct (maxFrom_spec (computeSpectrumSegment segment sr)
                (globalMax st)) as (H1 & H2 & H3).
    pose proof (computeSpectrumSegment_nonneg L segment sr) as H0.
    repeat split; [done| |done].
    rewrite Forall_forall in H0, H2. apply Forall_forall.
    intros v Hv. split; [by apply H0|by apply H2].
Qed.

Abbreviation slicesFrom layer sr sliceLength slices st :=
  (fold_left (sliceStep layer sr sliceLength) slices st).

Lemma sliceStep_fold layer sr sliceLength slices st :
  let st' := slicesFrom layer sr sliceLength slices st in
  exists rows,
    surface st' = surface st ++ rows /\
    length rows = length slices /\
    Forall (fun row => length row = FREQ_BINS) rows /\
    (forall L : MathLaws M, 0 <= globalMax st ->
       globalMax st <= globalMax st' /\
       within (globalMax st') rows /\
       (globalMax st' = globalMax st \/
        exists row, row ∈ rows /\ globalMax st' ∈ row)).
Proof.
  revert st. induction slices as [|slice slices IH]; intros st; simpl.
  - exists []. rewrite app_nil_r.
    split; [done|]. split; [done|]. split; [constructor|].
    intros L Hg. split; [apply Qcle_refl|]. split; [constructor|by left].
  - destruct (sliceStep_spec layer sr sliceLength st slice)
      as (row & Hs & Hl & Hb).
    destruct (IH (sliceStep layer sr sliceLength st slice))
      as (rows & Hs' & Hl' & Hf & Hb').
    exists (row :: rows). split; [|split; [|split]].
    + rewrite Hs', Hs. by rewrite <- app_assoc.
    + simpl. by rewrite Hl'.
    + by constructor.
    + intros L Hg. destruct (Hb L Hg) as (H1 & H2 & H3).
      assert (0 <= globalMax (sliceStep layer sr sliceLength st slice))
        as Hg' by by eapply Qcle_trans.
      destruct (Hb' L Hg') as (H1' & H2' & H3').
      split; [by eapply Qcle_trans|]. split.
      * constructor; [|done].
        eapply Forall_impl; [exact H2|]. intros v [? ?].
        split; [done|by eapply Qcle_trans].
      * destruct H3' as [H3'|(row' & Hin & Hmax)].
        -- rewrite H3'. destruct H3 as [H3|H3]; [by left|right].
           exists row. split; [by left|done].
        -- right. exists row'. split; [by right|done].
Qed.

Lemma surfaceStep_spec windowed sr segmentLength st surfaceIndex :
  let st' := surfaceStep windowed sr segmentLength st surfaceIndex in
  let layer :=
    subarray (surfaceIndex * segmentLength)
      (Nat.min (surfaceIndex * segmentLength + segmentLength)
         (length windowed)) windowed in
  (surfaces st'
   = surfaces st
     ++ (if decide (length layer = 0)%nat then []
         else [surface
                 (slicesFrom layer sr
                    (Nat.max 1 (length layer / TIME_SLICES))
                    (seq 0 TIME_SLICES)
                    {| surface := []; globalMax := maxSoFar st |})])) /\
  (shaped (surfaces st) -> shaped (surfaces st')) /\
  (forall L : MathLaws M, bounded st -> bounded st').
Proof.
  intros st' layer. unfold st', surfaceStep. fold layer.
  destruct (decide (length layer = 0)%nat) as [H0|Hne].
  - rewrite app_nil_r. done.
  - cbv zeta. cbn [surfaces maxSoFar].
    destruct (sliceStep_fold layer sr
                (Nat.max 1 (length layer / TIME_SLICES)) (seq 0 TIME_SLICES)
                {| surface := []; globalMax := maxSoFar st |})
      as (rows & Hs & Hl & Hf & Hb).
    cbn [surface globalMax app] in Hs, Hb. rewrite length_seq in Hl.
    split; [done|]. split.
    + intros Hshape. apply Forall_app. split; [done|].
      constructor; [|constructor]. rewrite Hs. by split.
    + intros L (Hg & Hw & Hmax). destruct (Hb L Hg) as (H1 & H2 & H3).
      split; [by eapply Qcle_trans|]. split.
      * apply Forall_app. split.
        -- eapply Forall_impl; [exact Hw|]. intros surface.
           by apply within_mono.
        -- constructor; [|constructor]. by rewrite Hs.
      * destruct H3 as [H3|(row & Hin & Hrow)].
        -- rewrite H3. destruct Hmax as [Hmax|(surface & row & Hi & Hr & Hv)];
             [by left|right].
           exists surface, row. split; [|done].
           apply elem_of_app. by left.
        -- right. eexists _, row. split; [|split; [|exact Hrow]].
           ++ apply elem_of_app. right. by left.
           ++ by rewrite Hs.
Qed.

Abbreviation surfacesFrom windowed sr segmentLength indices st :=
  (fold_left (surfaceStep windowed sr segmentLength) indices st).

Lemma surfaceStep_fold windowed sr segmentLength indices st :
  let st' := surfacesFrom windowed sr segmentLength indices st in
  (exists rest, surfaces st' = surfaces st ++ rest) /\
  (shaped (surfaces st) -> shaped (surfaces st')) /\
  (forall L : MathLaws M, bounded st -> bounded st').
Proof.
  revert st. induction indices as [|i indices IH]; intros st; simpl.
  - split; [exists []; by rewrite app_nil_r|done].
  - destruct (surfaceStep_spec windowed sr segmentLength st i)
      as (Hs & Hshape & Hb).
    destruct (IH (surfaceStep windowed sr segmentLength st i))
      as ((rest & Hs') & Hshape' & Hb').
    split; [|split].
    + rewrite Hs', Hs. rewrite <- app_assoc. by eexists.
    + intros H. by apply Hshape', Hshape.
    + intros L H. by apply Hb', Hb.
Qed.

(** A layer is taken for every index whose offset lies inside the
    window. *)
Lemma surfaceStep_count windowed sr segmentLength st surfaceIndex :
  (0 < segmentLength)%nat ->
  length (surfaces (surfaceStep windowed sr segmentLength st surfaceIndex))
  = (length (surfaces st)
     + (if decide (surfaceIndex * segmentLength < length windowed)%nat
        then 1 else 0))%nat.
Proof.
  intros Hseg.
  destruct (surfaceStep_spec windowed sr segmentLength st surfaceIndex)
    as (-> & _). rewrite length_app, length_subarray.
  destruct (decide (surfaceIndex * segmentLength < length windowed)%nat);
    destruct (decide _) as [H0|H0]; simpl; lia.
Qed.

Lemma rawSurfaces_count payload startSample windowSamples :
  let end_ :=
    Nat.min (length (samples payload)) (startSample + windowSamples) in
  length (surfaces (rawSurfaces payload startSample windowSamples))
  = Nat.min SURFACE_COUNT (end_ - startSample).
Proof.
  intros end_. unfold rawSurfaces. fold end_. cbv zeta.
  set (windowed := subarray startSample end_ (samples payload)).
  assert (length windowed = (end_ - startSample)%nat) as Hlen.
  { unfold windowed. rewrite length_subarray. unfold end_. lia. }
  set (segmentLength := Nat.max 1 (length windowed / SURFACE_COUNT)).
  assert (0 < segmentLength)%nat as Hseg by (unfold segmentLength; lia).
  assert (SURFACE_COUNT * (length windowed / SURFACE_COUNT)
          <= length windowed)%nat as Hdiv
    by (apply Nat.Div0.mul_div_le).
  assert (length windowed < 3 -> length windowed / SURFACE_COUNT = 0)%nat
    as Hsmall by (intros; apply Nat.div_small; unfold SURFACE_COUNT; lia).
  assert (3 <= length windowed -> 1 <= length windowed / SURFACE_COUNT)%nat
    as Hbig.
  { intros H. apply (Nat.div_le_lower_bound _ SURFACE_COUNT 1);
      unfold SURFACE_COUNT; lia. }
  change (seq 0 SURFACE_COUNT) with [0; 1; 2]%nat.
  cbn [fold_left]. rewrite !surfaceStep_count by done.
  cbn [surfaces length]. rewrite <- Hlen.
  subst segmentLength. unfold SURFACE_COUNT in *.
  set (q := (length windowed / 3)%nat) in *. clearbody q.
  repeat destruct (decide _); lia.
Qed.

Lemma rawSurfaces_facts payload startSample windowSamples :
  shaped (surfaces (rawSurfaces payload startSample windowSamples)) /\
  (forall L : MathLaws M,
     bounded (rawSurfaces payload startSample windowSamples)).
Proof.
  unfold rawSurfaces. cbv zeta.
  match goal with
  | |- context [surfacesFrom ?w ?sr ?sl ?ixs ?st] =>
      destruct (surfaceStep_fold w sr sl ixs st) as (_ & Hshape & Hb)
  end.
  split.
  - apply Hshape. unfold shaped. cbn [surfaces]. constructor.
  - intros L. apply Hb; [done|]. unfold bounded. cbn [surfaces maxSoFar].
    split; [apply Qcle_refl|]. split; [constructor|by left].
Qed.

Lemma sliceStep_first layer sr sliceLength g :
  let available := Nat.max 64 (Nat.min WINDOW_SIZE (length layer)) in
  let copied := subarray 0 available layer in
  let segment := copied ++ replicate (available - length copied) 0 in
  (0 < length layer)%nat ->
  surface (sliceStep layer sr sliceLength
             {| surface := []; globalMax := g |} 0)
  = [computeSpectrumSegment segment sr].
Proof.
  intros available copied segment Hl. unfold sliceStep.
  cbn [Nat.mul].
  destruct (decide (length layer <= 0)%nat) as [Hout|_]; [lia|].
  cbv zeta. cbn [surface app Nat.add]. rewrite Nat.sub_0_r. reflexivity.
Qed.

Lemma seq_SURFACE_COUNT : seq 0 SURFACE_COUNT = (0 :: seq 1 2)%nat.
Proof. reflexivity. Qed.

Lemma seq_TIME_SLICES : seq 0 TIME_SLICES = (0 :: seq 1 27)%nat.
Proof. reflexivity. Qed.

Lemma sliceStep_fold_head layer sr sliceLength slice slices st :
  exists rows,
    surface (slicesFrom layer sr sliceLength (slice :: slices) st)
    = surface (sliceStep layer sr sliceLength st slice) ++ rows.
Proof.
  destruct (sliceStep_fold layer sr sliceLength slices
              (sliceStep layer sr sliceLength st slice))
    as (rows & Hs & _).
  exists rows. exact Hs.
Qed.

Lemma surfaceStep_fold_head windowed sr segmentLength i indices st :
  exists rest,
    surfaces (surfacesFrom windowed sr segmentLength (i :: indices) st)
    = surfaces (surfaceStep windowed sr segmentLength st i) ++ rest.
Proof.
  destruct (surfaceStep_fold windowed sr segmentLength indices
              (surfaceStep windowed sr segmentLength st i))
    as ((rest & Hs) & _).
  exists rest. exact Hs.
Qed.

Lemma surfaceStep_first windowed sr segmentLength :
  let layer :=
    subarray 0 (Nat.min segmentLength (length windowed)) windowed in
  (0 < length layer)%nat ->
  surfaces (surfaceStep windowed sr segmentLength
              {| surfaces := []; maxSoFar := 0 |} 0)
  = [surface
       (slicesFrom layer sr (Nat.max 1 (length layer / TIME_SLICES))
          (seq 0 TIME_SLICES) {| surface := []; globalMax := 0 |})].
Proof.
  intros layer Hl. unfold surfaceStep. cbn [Nat.mul Nat.add]. fold layer.
  destruct (decide (length layer = 0)%nat) as [H0|_]; [lia|].
  reflexivity.
Qed.

Lemma entry_first (row : list Qc) (rows : SurfaceMatrix)
    (rest : list SurfaceMatrix) (c : nat) :
  entry ([[row] ++ rows] ++ rest) 0 0 c = row !! c.
Proof. reflexivity. Qed.

(** The first row of the first layer is the spectrum of the first
    segment. *)
Lemma rawSurfaces_first_row payload startSample windowSamples :
  let end_ :=
    Nat.min (length (samples payload)) (startSample + windowSamples) in
  let windowed := subarray startSample end_ (samples payload) in
  let segmentLength := Nat.max 1 (length windowed / SURFACE_COUNT) in
  let layer :=
    subarray 0 (Nat.min segmentLength (length windowed)) windowed in
  let available := Nat.max 64 (Nat.min WINDOW_SIZE (length layer)) in
  let copied := subarray 0 available layer in
  let segment := copied ++ replicate (available - length copied) 0 in
  (0 < length layer)%nat ->
  forall c,
    entry (surfaces (rawSurfaces payload startSample windowSamples)) 0 0 c
    = computeSpectrumSegment segment (sampleRate payload) !! c.
Proof.
  intros end_ windowed segmentLength layer available copied segment Hl c.
  unfold rawSurfaces. fold end_ windowed segmentLength.
  rewrite seq_SURFACE_COUNT.
  destruct (surfaceStep_fold_head windowed (sampleRate payload)
              segmentLength 0 (seq 1 2) {| surfaces := []; maxSoFar := 0 |})
    as (rest & ->).
  rewrite surfaceStep_first by done. fold layer.
  rewrite seq_TIME_SLICES.
  destruct (sliceStep_fold_head layer (sampleRate payload)
              (Nat.max 1 (length layer / TIME_SLICES)) 0 (seq 1 27)
              {| surface := []; globalMax := 0 |})
    as (rows & ->).
  rewrite sliceStep_first by done.
  apply entry_first.
Qed.

Lemma entry_map (f : Qc -> Qc) (m : list SurfaceMatrix) s r c :
  entry (map (map (map f)) m) s r c = f <$> entry m s r c.
Proof.
  unfold entry, SurfaceMatrix in *. rewrite list_lookup_fmap.
  destruct (m !! s) as [surface|]; simpl; [|done].
  rewrite list_lookup_fmap.
  destruct (surface !! r) as [row|]; simpl; [|done].
  by rewrite list_lookup_fmap.
Qed.

Lemma entry_elem (m : list SurfaceMatrix) s r c v :
  entry m s r c = Some v ->
  exists surface row, surface ∈ m /\ row ∈ surface /\ v ∈ row.
Proof.
  unfold entry, SurfaceMatrix in *.
  destruct (m !! s) as [surface|] eqn:Hs; [|done].
  destruct (surface !! r) as [row|] eqn:Hr; [|done].
  intros Hc. exists surface, row.
  repeat split; by eapply list_elem_of_lookup_2.
Qed.

Lemma elem_entry (m : list SurfaceMatrix) surface row v :
  surface ∈ m -> row ∈ surface -> v ∈ row ->
  exists s r c, entry m s r c = Some v.
Proof.
  intros Hs Hr Hv.
  apply list_elem_of_lookup_1 in Hs as [s Hs].
  apply list_elem_of_lookup_1 in Hr as [r Hr].
  apply list_elem_of_lookup_1 in Hv as [c Hv].
  exists s, r, c. unfold entry, SurfaceMatrix in *. by rewrite Hs, Hr.
Qed.

Lemma Qc_div_unit (x m : Qc) :
  0 <= x -> x <= m -> 0 < m -> 0 <= x / m /\ x / m <= 1.
Proof.
  intros H0 H1 Hm. split; [by apply Qc_div_nonneg|].
  assert (0 <= (m - x) / m) as H by (apply Qc_div_nonneg; [qc_lra|done]).
  assert ((m - x) / m = 1 - x / m) as Heq.
  { field. intros ->. revert Hm. apply Qcle_not_lt, Qcle_refl. }
  rewrite Heq in H. qc_lra.
Qed.

End ExtractionFacts.

(** X3.  [extractSurfacesForWindow] returns one surface for each of the
    first [SURFACE_COUNT] samples of the window that lies in the payload,
    so none exactly when the window is empty, and every surface has
    [TIME_SLICES] rows of [FREQ_BINS] values. *)
Theorem extraction_shape (M : MathLib) (payload : Contours.AudioPayload)
    (startSample windowSamples : nat) :
  let end_ :=
    Nat.min (length (Contours.samples payload))
      (startSample + windowSamples) in
  let r :=
    Contours.extractSurfacesForWindow payload startSample windowSamples in
  length r = Nat.min Contours.SURFACE_COUNT (end_ - startSample) /\
  (r = [] <-> (end_ <= startSample)%nat) /\
  (forall surface, surface ∈ r ->
     length surface = Contours.TIME_SLICES /\
     forall row, row ∈ surface -> length row = Contours.FREQ_BINS).
Proof.
  intros end_ r.
  assert (length r = Nat.min Contours.SURFACE_COUNT (end_ - startSample))
    as Hlen.
  { unfold r, Contours.extractSurfacesForWindow. fold end_.
    destruct (decide (end_ <= startSample)%nat) as [Hle|Hgt].
    - cbn [length]. lia.
    - cbv zeta. rewrite length_map. apply rawSurfaces_count. }
  split; [done|]. split.
  - split.
    + intros Hr. rewrite Hr in Hlen. cbn [length] in Hlen.
      unfold Contours.SURFACE_COUNT in Hlen. lia.
    + intros Hle. apply nil_length_inv. rewrite Hlen. lia.
  - intros surface Hin. unfold r, Contours.extractSurfacesForWindow in Hin.
    fold end_ in Hin.
    destruct (decide (end_ <= startSample)%nat) as [Hle|Hgt].
    { by apply elem_of_nil in Hin. }
    cbv zeta in Hin. apply list_elem_of_fmap in Hin as (raw & -> & Hraw).
    destruct (rawSurfaces_facts payload startSample windowSamples)
      as [Hshape _].
    unfold ContourView.shaped in Hshape. rewrite Forall_forall in Hshape.
    destruct (Hshape raw Hraw) as [Hrows Hcols].
    split; [by rewrite length_map|].
    intros row Hrow. apply list_elem_of_fmap in Hrow as (raw_row & -> & Hrr).
    rewrite length_map. rewrite Forall_forall in Hcols. by apply Hcols.
Qed.

(** X4.  With a square root that is never negative and a power that keeps
    [[0, 1]] and 1, every value [extractSurfacesForWindow] returns lies in
    [[0, 1]], and when some magnitude of the window is not 0 one of the
    returned values is exactly 1. *)
Theorem extraction_normalised (M : MathLib) (L : MathLaws M)
    (payload : Contours.AudioPayload) (startSample windowSamples : nat) :
  let raw := Contours.rawSurfaces payload startSample windowSamples in
  let r :=
    Contours.extractSurfacesForWindow payload startSample windowSamples in
  (forall s t c v, ContourView.entry r s t c = Some v ->
     (0 <= v)%Qc /\ (v <= 1)%Qc) /\
  (forall s t c v,
     ContourView.entry (Contours.surfaces raw) s t c = Some v ->
     v <> 0%Qc ->
     exists s' t' c', ContourView.entry r s' t' c' = Some 1%Qc).
Proof.
  intros raw r.
  destruct (rawSurfaces_facts payload startSample windowSamples)
    as [_ Hb].
  destruct (Hb L) as (Hmax0 & Hwithin & Hmax). fold raw in Hmax0, Hwithin, Hmax.
  assert (forall s t c v,
            ContourView.entry (Contours.surfaces raw) s t c = Some v ->
            (0 <= v)%Qc /\ (v <= Contours.maxSoFar raw)%Qc) as Hentry.
  { intros s t c v Hv.
    destruct (entry_elem _ _ _ _ _ Hv) as (surface & row & Hs & Hr & Hc).
    rewrite Forall_forall in Hwithin.
    pose proof (Hwithin surface Hs) as H1. rewrite Forall_forall in H1.
    pose proof (H1 row Hr) as H2. rewrite Forall_forall in H2.
    by apply H2. }
  assert ((0 <= Q2Qc 0.85)%Qc) as Hexp by done.
  split.
  - intros s t c v. unfold r, Contours.extractSurfacesForWindow.
    destruct (decide _) as [Hle|Hgt].
    { unfold ContourView.entry. by rewrite lookup_nil. }
    cbv zeta. fold raw. rewrite entry_map.
    destruct (ContourView.entry (Contours.surfaces raw) s t c)
      as [v0|] eqn:Hv0; [|done].
    simpl. intros [= <-]. destruct (Hentry s t c v0 Hv0) as [H0 H1].
    destruct (decide (Contours.maxSoFar raw = 0%Qc)) as [Hz|Hnz].
    + apply JS.pow_unit; [|done]. rewrite Hz in H1.
      assert (v0 = 0%Qc) as -> by qc_lra. done.
    + apply JS.pow_unit; [|done].
      apply Qc_div_unit; [done|done|].
      destruct (Qcle_lt_or_eq _ _ Hmax0) as [Hlt|Heq]; [done|].
      by destruct Hnz.
  - intros s t c v Hv Hne.
    destruct (Hentry s t c v Hv) as [H0 H1].
    assert (Contours.maxSoFar raw <> 0%Qc) as Hnz.
    { intros Hz. rewrite Hz in H1. apply Hne. qc_lra. }
    destruct Hmax as [Hz|(surface & row & Hs & Hr & Hc)]; [done|].
    destruct (elem_entry _ _ _ _ Hs Hr Hc) as (s' & t' & c' & He).
    exists s', t', c'. unfold r, Contours.extractSurfacesForWindow.
    destruct (decide _) as [Hle|Hgt].
    { pose proof (rawSurfaces_count (M := M) payload startSample
                    windowSamples) as Hcount. cbv zeta in Hcount.
      fold raw in Hcount.
      destruct (Contours.surfaces raw) as [|x l] eqn:Hx.
      - unfold ContourView.entry in He. by rewrite lookup_nil in He.
      - cbn [length] in Hcount. lia. }
    cbv zeta. fold raw. rewrite entry_map, He. simpl. f_equal.
    destruct (decide (Contours.maxSoFar raw = 0%Qc)) as [Hz|_]; [done|].
    replace (Contours.maxSoFar raw / Contours.maxSoFar raw)%Qc with 1%Qc.
    + apply JS.pow_one.
    + field. done.
Qed.

Lemma click_first_magnitude :
  exists v,
    ContourView.entry
      (Contours.surfaces
         (Contours.rawSurfaces (M := Approx.rationalMath)
            ContourExamples.click 0 6)) 0 0 0 = Some v /\ v <> 0%Qc.
Proof.
  eexists. split.
  - etransitivity.
    + apply (rawSurfaces_first_row (M := Approx.rationalMath)
               ContourExamples.click 0 6).
      apply Nat.ltb_lt. vm_compute. reflexivity.
    + apply (computeSpectrumSegment_bin (M := Approx.rationalMath)).
      apply Nat.ltb_lt. reflexivity.
  - intros Heq. apply (f_equal this) in Heq. vm_compute in Heq.
    discriminate.
Qed.

Lemma extraction_normalised_witness :
  exists s t c,
    ContourView.entry
      (Contours.extractSurfacesForWindow (M := Approx.rationalMath)
         ContourExamples.click 0 6) s t c = Some 1%Qc.
Proof.
  destruct (extraction_normalised Approx.rationalMath rationalMath_laws
              ContourExamples.click 0 6) as [_ H].
  destruct click_first_magnitude as (v & Hv & Hne).
  exact (H 0%nat 0%nat 0%nat v Hv Hne).
Defined.

(* ----------------------------------------------------------------- *)
(** *** The scan of the payload *)

Section ScanFacts.

Import Contours ContourView.
Local Open Scope Qc_scope.

Context {M : MathLib}.

Lemma windowSamplesOf_le (payload : AudioPayload) :
  (windowSamplesOf payload <= length (samples payload))%nat.
Proof. unfold windowSamplesOf. lia. Qed.

Lemma initialScanner_inv (payload : AudioPayload) :
  scanInv payload initialScanner.
Proof. unfold scanInv. simpl. apply windowSamplesOf_le. Qed.

Lemma update_inv (payload : AudioPayload) (performance_now : Qc)
    (s : Scanner) :
  scanInv payload (update payload performance_now s).
Proof.
  unfold scanInv, update. cbv zeta. cbn [offsetSamples].
  pose proof (windowSamplesOf_le payload).
  destruct (decide (length (samples payload)
                    <= offsetSamples s + stepSamplesOf payload
                       + windowSamplesOf payload)%nat); simpl; lia.
Qed.

Lemma runUpdates_inv (payload : AudioPayload) (clock : list Qc)
    (s : Scanner) :
  scanInv payload s -> scanInv payload (runUpdates payload clock s).
Proof.
  revert s. induction clock as [|performance_now clock IH]; intros s Hs;
    [done|].
  simpl. apply IH, update_inv.
Qed.

Lemma showFirst_nonempty (surfaces : list SurfaceMatrix) (s : BlendState) :
  surfaces <> [] -> displaySurfaces (showFirst surfaces s) <> [].
Proof.
  intros Hne. unfold showFirst.
  destruct (decide _) as [_|Hn]; [done|].
  intros Hd. apply Hn. split; [by rewrite Hd|].
  destruct surfaces; [done|simpl; lia].
Qed.

Lemma showFirst_task (surfaces : list SurfaceMatrix) (s : BlendState) :
  transitionRef (showFirst surfaces s) = transitionRef s /\
  rafRef (showFirst surfaces s) = rafRef s.
Proof. unfold showFirst. by destruct (decide _). Qed.

End ScanFacts.

(** X5.  The scan keeps its window inside the payload: whatever the clock,
    the offset plus the window length never passes the end of the samples.
    Every run of [update] therefore extracts a full window, stores its
    layers as the current surfaces, makes them the target of the blend with
    a frame requested, leaves something on display, and moves the offset
    on by the step or back to 0. *)
Theorem scan_window_stays_inside (M : MathLib)
    (payload : Contours.AudioPayload) :
  (0 < ContourView.windowSamplesOf payload)%nat ->
  (forall clock,
     ContourView.scanInv payload
       (ContourView.runUpdates payload clock ContourView.initialScanner)) /\
  (forall s performance_now,
     ContourView.scanInv payload s ->
     let s' := ContourView.update payload performance_now s in
     let next :=
       Contours.extractSurfacesForWindow payload
         (ContourView.offsetSamples s)
         (ContourView.windowSamplesOf payload) in
     length next
     = Nat.min Contours.SURFACE_COUNT (ContourView.windowSamplesOf payload) /\
     ContourView.surfacesState s' = next /\
     Contours.to <$> Contours.transitionRef (ContourView.blend s')
     = Some next /\
     Contours.rafRef (ContourView.blend s') = true /\
     Contours.displaySurfaces (ContourView.blend s') <> [] /\
     (ContourView.offsetSamples s' = 0%nat \/
      ContourView.offsetSamples s'
      = (ContourView.offsetSamples s
         + ContourView.stepSamplesOf payload)%nat)).
Proof.
  intros Hw. split.
  { intros clock. apply runUpdates_inv, initialScanner_inv. }
  intros s performance_now Hinv s' next.
  destruct (extraction_shape M payload (ContourView.offsetSamples s)
              (ContourView.windowSamplesOf payload)) as (Hlen & _).
  fold next in Hlen. unfold ContourView.scanInv in Hinv.
  assert (length next
          = Nat.min Contours.SURFACE_COUNT
              (ContourView.windowSamplesOf payload)) as Hlen'.
  { rewrite Hlen. f_equal. lia. }
  assert (next <> []) as Hne.
  { intros Hn. rewrite Hn in Hlen'. cbn [length] in Hlen'.
    unfold Contours.SURFACE_COUNT in Hlen'. lia. }
  assert (length next <> 0)%nat as Hl0.
  { destruct next; [done|simpl; lia]. }
  split; [done|].
  unfold s', ContourView.update. cbv zeta. fold next.
  cbn [ContourView.offsetSamples ContourView.surfacesState ContourView.blend].
  destruct (decide (length next = 0)%nat) as [H0|_]; [done|].
  destruct (showFirst_task next
              (Contours.scheduleBlend next performance_now
                 (ContourView.blend s))) as [-> ->].
  split; [done|]. split; [done|]. split; [done|].
  split; [by apply showFirst_nonempty|].
  destruct (decide _); [by left|by right].
Qed.

Lemma scan_window_witness :
  ContourView.scanInv ContourExamples.click
    (ContourView.runUpdates (M := Approx.rationalMath) ContourExamples.click
       [0%Qc; Q2Qc 180] ContourView.initialScanner).
Proof.
  destruct (scan_window_stays_inside Approx.rationalMath
              ContourExamples.click) as [H _].
  - apply Nat.ltb_lt. vm_compute. reflexivity.
  - apply H.
Defined.

(* ----------------------------------------------------------------- *)
(** *** Contour positions *)

Section PositionFacts.

Import Contours ContourView.

Lemma indexOf_first (arr : list nat) (index value : nat) :
  indexOf value arr = Z.of_nat index -> arr !! index = Some value.
Proof.
  unfold indexOf.
  destruct (list_find (fun v => v = value) arr) as [[i v]|] eqn:Hf; [|lia].
  apply list_find_Some in Hf as (Hi & -> & _).
  intros H. by replace index with i by lia.
Qed.

Lemma indexOf_elem (arr : list nat) (value : nat) :
  value ∈ arr ->
  exists index, indexOf value arr = Z.of_nat index /\
                arr !! index = Some value.
Proof.
  intros Hin. unfold indexOf.
  destruct (list_find_elem_of (fun v => v = value) arr value Hin eq_refl)
    as [[i v] Hf].
  rewrite Hf. apply list_find_Some in Hf as (Hi & -> & _). by exists i.
Qed.

Lemma NoDup_indexed (arr : list nat) :
  NoDup (imap (fun index value => (index, value)) arr).
Proof.
  apply NoDup_alt. intros i j [k v]. rewrite !list_lookup_imap.
  destruct (arr !! i); [|done]. destruct (arr !! j); [|done].
  simpl. congruence.
Qed.

Lemma elem_of_kept (arr : list nat) (p : nat * nat) :
  p ∈ List.filter
        (fun p : nat * nat => Z.eqb (indexOf (snd p) arr) (Z.of_nat (fst p)))
        (imap (fun index value => (index, value)) arr)
  <-> indexOf (snd p) arr = Z.of_nat (fst p).
Proof.
  rewrite list_elem_of_In, filter_In, <- list_elem_of_In, Z.eqb_eq.
  split; [by intros [_ H]|]. intros H. split; [|done].
  apply elem_of_lookup_imap. exists (fst p), (snd p).
  split; [by destruct p|]. by apply indexOf_first.
Qed.

(** Keeping the first occurrences removes the duplicates and nothing
    else. *)
Lemma firstOccurrences_spec (arr : list nat) :
  NoDup (firstOccurrences arr) /\
  forall value, value ∈ firstOccurrences arr <-> value ∈ arr.
Proof.
  unfold firstOccurrences. split.
  - apply NoDup_fmap_2_strong.
    + intros [i v] [j w] Hp Hq Heq. simpl in Heq. subst w.
      apply elem_of_kept in Hp, Hq. simpl in Hp, Hq. f_equal. lia.
    + apply NoDup_ListNoDup, List.NoDup_filter, NoDup_ListNoDup, NoDup_indexed.
  - intros value. rewrite list_elem_of_fmap. split.
    + intros ([i v] & -> & Hp). apply elem_of_kept in Hp. simpl in *.
      eapply list_elem_of_lookup_2, indexOf_first, Hp.
    + intros Hin. destruct (indexOf_elem arr value Hin) as (i & Hi & _).
      exists (i, value). split; [done|]. by apply elem_of_kept.
Qed.

Lemma contourIndex_lt (count : nat) (ratio : Qc) :
  (0 < count)%nat -> (contourIndex count ratio < count)%nat.
Proof. intros H. unfold contourIndex. lia. Qed.

End PositionFacts.

(** X6.  The contour positions are distinct indices inside the surface,
    each the rounded position of one of the ratios; a surface of a single
    row or column gets none.  For the shipped sizes they are bins 5, 10 and
    14 and slices 8, 15 and 22; on two bins the second and third ratio
    round to the same bin, which is kept once. *)
Theorem contour_positions_distinct_and_inside
    (count : nat) (ratios : list Qc) :
  let positions := ContourView.contourIndices count ratios in
  NoDup positions /\
  (forall index, index ∈ positions ->
     (index < count)%nat /\
     exists ratio, ratio ∈ ratios /\
                   index = ContourView.contourIndex count ratio) /\
  ((count <= 1)%nat -> positions = []) /\
  ((1 < count)%nat ->
   forall ratio, ratio ∈ ratios ->
     ContourView.contourIndex count ratio ∈ positions) /\
  ContourView.contourFreqs Contours.FREQ_BINS = [5; 10; 14]%nat /\
  ContourView.contourTimes Contours.TIME_SLICES = [8; 15; 22]%nat /\
  ContourView.contourFreqs 2 = [0; 1]%nat.
Proof.
  intros positions. unfold positions, ContourView.contourIndices.
  destruct (decide (1 < count)%nat) as [Hc|Hc].
  - destruct (firstOccurrences_spec
                (map (ContourView.contourIndex count) ratios))
      as [Hnd Hin].
    split; [done|]. split; [|split; [lia|split]].
    + intros index Hi. apply Hin in Hi.
      apply list_elem_of_fmap in Hi as (ratio & -> & Hr).
      split; [apply contourIndex_lt; lia|by exists ratio].
    + intros _ ratio Hr. apply Hin, list_elem_of_fmap. by exists ratio.
    + repeat split; vm_compute; reflexivity.
  - split; [constructor|]. split; [|split; [done|split]].
    + intros index Hi. by apply elem_of_nil in Hi.
    + lia.
    + repeat split; vm_compute; reflexivity.
Qed.

Lemma contour_positions_witness :
  ContourView.contourIndex 28 (Q2Qc 0.55)
  ∈ ContourView.contourIndices 28 (map Q2Qc [0.3; 0.55; 0.8]%Q).
Proof.
  destruct (contour_positions_distinct_and_inside 28
              (map Q2Qc [0.3; 0.55; 0.8]%Q)) as (_ & _ & _ & H & _).
  apply H; [lia|]. right. left.
Defined.

(* ----------------------------------------------------------------- *)
(** *** The rim *)

Section RimFacts.

Import Contours ContourView.







End RimFacts.



(* ================================================================= *)
(** ** The 256-bin component: ranges, audio start and analysis window *)

Section RangeFacts.

Import Spectrogram.
Local Open Scope Qc_scope.

Context (cfg : Config) {M : MathLib}.

Abbreviation unit := (fun v : Qc => 0 <= v /\ v <= 1).
Abbreviation byte := (fun v : Z => (0 <= v < 256)%Z).










End RangeFacts.

(* ----------------------------------------------------------------- *)
(** *** Engine and picture *)

Section EngineFacts.

Import Spectrogram.
Local Open Scope Qc_scope.

Context (cfg : Config) {M : MathLib}.

(** Two components that differ at most in the audio engine. *)
Abbreviation sameVisuals c c' :=
  (audioBuffer c = audioBuffer c' /\ analyser c = analyser c' /\
   smoothedRow c = smoothedRow c' /\ hasSmoothedRow c = hasSmoothedRow c' /\
   spectrogramData c = spectrogramData c').

Lemma startAudioSource_visuals (performance_now : Qc) (c : Component) :
  sameVisuals (startAudioSource performance_now c) c.
Proof.
  unfold startAudioSource.
  destruct (audioContext (engine c)); [|done].
  destruct (audioBuffer c) eqn:Hb; [|done].
  destruct (analyserNode (engine c)); [|done].
  destruct (audioSource (engine c)); done.
Qed.

Lemma updateSpectrogram_visuals (performance_now : Qc) (c c' : Component) :
  sameVisuals c c' ->
  sameVisuals (updateSpectrogram cfg performance_now c)
    (updateSpectrogram cfg performance_now c') /\
  engine (updateSpectrogram cfg performance_now c) = engine c.
Proof.
  intros (Hb & Ha & Hs & Hh & Hd). unfold updateSpectrogram.
  cbn [audioBuffer analyser smoothedRow hasSmoothedRow spectrogramData
       engine].
  rewrite Hb, Ha, Hs, Hh, Hd. done.
Qed.

Lemma runTicks_visuals (clock : list Qc) (c c' : Component) :
  sameVisuals c c' ->
  sameVisuals (runTicks cfg clock c) (runTicks cfg clock c') /\
  engine (runTicks cfg clock c) = engine c.
Proof.
  revert c c'. induction clock as [|performance_now clock IH];
    intros c c' H; [done|].
  cbn [runTicks fold_left].
  destruct (updateSpectrogram_visuals performance_now c c' H) as [H1 H2].
  destruct (IH _ _ H1) as [H3 H4]. split; [exact H3|].
  unfold runTicks in H4. by rewrite H4.
Qed.


End EngineFacts.



(** X9.  Ticks do not touch the audio engine, and the picture does not
    depend on it: after any sequence of ticks the history, the committed
    row and the analyser memory are the same whether or not the audio
    source was started before them. *)
Theorem picture_ignores_audio_engine
    (cfg : Spectrogram.Config) (M : MathLib)
    (clock : list Qc) (performance_now : Qc) (c : Spectrogram.Component) :
  let played :=
    Spectrogram.runTicks cfg clock
      (Spectrogram.startAudioSource performance_now c) in
  let silent := Spectrogram.runTicks cfg clock c in
  Spectrogram.spectrogramData played = Spectrogram.spectrogramData silent /\
  Spectrogram.smoothedRow played = Spectrogram.smoothedRow silent /\
  Spectrogram.analyser played = Spectrogram.analyser silent /\
  Spectrogram.engine silent = Spectrogram.engine c /\
  Spectrogram.engine played
  = Spectrogram.engine (Spectrogram.startAudioSource performance_now c).
Proof.
  intros played silent.
  destruct (runTicks_visuals cfg clock
              (Spectrogram.startAudioSource performance_now c) c
              (startAudioSource_visuals performance_now c))
    as ((_ & Ha & Hs & _ & Hd) & He).
  destruct (runTicks_visuals cfg clock c c) as [_ He']; [done|].
  done.
Qed.



(* ----------------------------------------------------------------- *)
(** *** The analysis window *)



(** X12.  A call of the analyser keeps the length of the frame array and
    of its memory and leaves every entry from [FREQUENCY_BINS] on as it
    was. *)
Theorem analysis_leaves_upper_bins
    (cfg : Spectrogram.Config) (M : MathLib)
    (buffer : Spectrogram.AudioBuffer) (st : Spectrogram.AnalyserState)
    (performance_now : Qc) (k : nat) :
  (Spectrogram.FREQUENCY_BINS cfg <= k)%nat ->
  let st' :=
    Spectrogram.result
      (Spectrogram.computeFrequencyData cfg buffer performance_now st) in
  Spectrogram.targetArray st' !! k = Spectrogram.targetArray st !! k /\
  Spectrogram.prevView st' !! k = Spectrogram.prevView st !! k /\
  length (Spectrogram.targetArray st')
  = length (Spectrogram.targetArray st) /\
  length (Spectrogram.prevView st') = length (Spectrogram.prevView st).
Proof.
  intros Hk st'. unfold st'.
  destruct (decide (Spectrogram.startIndexAt buffer performance_now
                    + Z.of_nat (Spectrogram.fftSize cfg)
                    >= Z.of_nat (length (Spectrogram.channelData buffer)))%Z)
    as [Hg|Hg].
  - rewrite computeFrequencyData_skip by done. done.
  - rewrite computeFrequencyData_run by done. cbv zeta.
    unfold Spectrogram.prevView at 1 3.
    cbn [Spectrogram.result Spectrogram.targetArray
         Spectrogram.prevFrequencyDataRef].
    set (binCount :=
           Nat.min (Spectrogram.FREQUENCY_BINS cfg)
             (length (Spectrogram.targetArray st))).
    pose proof (cutoffBinOf_le cfg buffer binCount) as Hcut.
    destruct (filledFrom_facts cfg buffer st) as (Hl1 & Hl2 & _ & _ & Hsame).
    fold binCount in Hsame.
    destruct (Hsame k) as [Ht Hp]; [lia|].
    set (cutoffBin := Spectrogram.cutoffBinOf cfg buffer binCount) in *.
    destruct (binStep_fold_other cfg
                (Spectrogram.channelData buffer)
                (Spectrogram.startIndexAt buffer performance_now)
                (seq cutoffBin (binCount - cutoffBin))
                (Spectrogram.filledFrom cfg buffer st) k) as [Ho1 Ho2].
    { rewrite elem_of_seq. lia. }
    destruct (binStep_fold_length cfg
                (Spectrogram.channelData buffer)
                (Spectrogram.startIndexAt buffer performance_now)
                (seq cutoffBin (binCount - cutoffBin))
                (Spectrogram.filledFrom cfg buffer st)) as [Hn1 Hn2].
    rewrite Ho1, Ho2, Hn1, Hn2, Ht, Hp, Hl1, Hl2. done.
Qed.

Lemma analysis_upper_bins_witness :
  Spectrogram.targetArray
    (Spectrogram.result
       (Spectrogram.computeFrequencyData Spectrogram.primary
          (M := Approx.rationalMath) Examples.squareWave 0
          (Spectrogram.initialAnalyser Spectrogram.primary))) !! 300%nat
  = Spectrogram.targetArray (Spectrogram.initialAnalyser Spectrogram.primary)
      !! 300%nat.
Proof.
  destruct (analysis_leaves_upper_bins Spectrogram.primary
              Approx.rationalMath Examples.squareWave
              (Spectrogram.initialAnalyser Spectrogram.primary) 0 300)
    as (H & _).
  - apply Nat.leb_le. reflexivity.
  - exact H.
Defined.

